(** * team-tasks: the task/state coordination engine of [scripts/task_manager.py]

    A shallow embedding of the engine's data model (stages, tasks, rounds),
    of its DAG helpers ([compute_ready_tasks], [detect_cycles]) and of the
    commands that change a project ([cmd_add], [cmd_update], [cmd_result],
    [cmd_round]), followed by the properties of the specification that
    concern them.

    Conventions of the embedding.
    - A project is the JSON document of the source; a key read with
      [proj.get(key, default)] is a field that holds the default when the key
      is absent.
    - The data directory is a finite map from project names to documents;
      [load_project] and [save_project] read and replace whole documents.
    - A command is a function from the directory (and the reading of the
      clock, [_now()]) to the state in which the process ends: the directory,
      the in-memory document, what was printed, and the exit status.
    - Argument parsing and the wording of messages are outside the
      embedding: a command receives the parsed arguments, and a printed line
      is the data it shows. *)

From stdpp Require Import base option strings list gmap sets relations.

Set Default Proof Using "Type".
#[local] Set Warnings "-clear-no-such-hyp".
Open Scope Z_scope.
Open Scope string_scope.
Open Scope list_scope.

(** ** Data model *)

(** [VALID_STATUSES]. *)
Inductive Status := pending | in_progress | done | failed | skipped.

Inductive Mode := linear | dag | debate.

(** The phase of a debate round. *)
Inductive Phase := initial | cross_review | synthesis.

#[global] Instance Status_eq_dec : EqDecision Status.
Proof. solve_decision. Defined.
#[global] Instance Mode_eq_dec : EqDecision Mode.
Proof. solve_decision. Defined.
#[global] Instance Phase_eq_dec : EqDecision Phase.
Proof. solve_decision. Defined.

(** The text of a status, as the command line and the JSON document carry it. *)
Definition status_text (s : Status) : string :=
  match s with
  | pending => "pending"
  | in_progress => "in-progress"
  | done => "done"
  | failed => "failed"
  | skipped => "skipped"
  end.

(** [status in VALID_STATUSES], with the status it denotes. *)
Definition parse_status (s : string) : option Status :=
  if decide (s = "pending") then Some pending
  else if decide (s = "in-progress") then Some in_progress
  else if decide (s = "done") then Some done
  else if decide (s = "failed") then Some failed
  else if decide (s = "skipped") then Some skipped
  else None.

(** What [make_stage] and [make_task] build. The two documents share every key
    but ["dependencies"], which only a task has: [i_more] is [unit] for a
    stage and the dependency list for a task. *)
Record Item (D : Type) := mkItem {
  i_id : string;
  i_agent : string;
  i_description : string;
  i_more : D;
  i_status : Status;
  i_result : string;
  i_assigned_at : string;
  i_completed_at : string;
}.
Arguments mkItem {D} _ _ _ _ _ _ _ _.
Arguments i_id {D} _.
Arguments i_agent {D} _.
Arguments i_description {D} _.
Arguments i_more {D} _.
Arguments i_status {D} _.
Arguments i_result {D} _.
Arguments i_assigned_at {D} _.
Arguments i_completed_at {D} _.

Definition Stage := Item unit.
Definition Task := Item (list string).

(** [t.get("dependencies", [])]. *)
Definition dependencies (t : Task) : list string := i_more t.

Record Debater := mkDebater {
  d_id : string;
  d_agent : string;
  d_perspective : string;
  d_added_at : string;
}.

Record Response := mkResponse {
  r_debater_id : option string;
  r_content : string;
  r_submitted_at : string;
  r_phase : Phase;
}.

Record Round := mkRound {
  round_number : Z;
  phase : Phase;
  started_at : string;
  responses : list Response;
}.

Record Project := mkProject {
  name : string;
  mode : Mode;
  goal : string;
  created_at : string;
  workspace : string;
  stages : list Stage;
  current_stage : Z;
  tasks : list Task;
  debaters : list Debater;
  rounds : list Round;
  question : option string;
}.

#[global] Instance Item_eq_dec {D} `{EqDecision D} : EqDecision (Item D).
Proof. solve_decision. Defined.
#[global] Instance Debater_eq_dec : EqDecision Debater.
Proof. solve_decision. Defined.
#[global] Instance Response_eq_dec : EqDecision Response.
Proof. solve_decision. Defined.
#[global] Instance Round_eq_dec : EqDecision Round.
Proof. solve_decision. Defined.
#[global] Instance Project_eq_dec : EqDecision Project.
Proof. solve_decision. Defined.

(** Field updates of an item ([item[key] = value]). *)
Definition set_i_status {D} (s : Status) (x : Item D) : Item D :=
  mkItem (i_id x) (i_agent x) (i_description x) (i_more x) s (i_result x)
         (i_assigned_at x) (i_completed_at x).
Definition set_i_result {D} (r : string) (x : Item D) : Item D :=
  mkItem (i_id x) (i_agent x) (i_description x) (i_more x) (i_status x) r
         (i_assigned_at x) (i_completed_at x).
Definition set_i_assigned_at {D} (ts : string) (x : Item D) : Item D :=
  mkItem (i_id x) (i_agent x) (i_description x) (i_more x) (i_status x)
         (i_result x) ts (i_completed_at x).
Definition set_i_completed_at {D} (ts : string) (x : Item D) : Item D :=
  mkItem (i_id x) (i_agent x) (i_description x) (i_more x) (i_status x)
         (i_result x) (i_assigned_at x) ts.

(** Field updates of a project ([proj[key] = value]). *)
Definition set_stages (l : list Stage) (p : Project) : Project :=
  mkProject (name p) (mode p) (goal p) (created_at p) (workspace p) l
            (current_stage p) (tasks p) (debaters p) (rounds p) (question p).
Definition set_current_stage (c : Z) (p : Project) : Project :=
  mkProject (name p) (mode p) (goal p) (created_at p) (workspace p) (stages p)
            c (tasks p) (debaters p) (rounds p) (question p).
Definition set_tasks (l : list Task) (p : Project) : Project :=
  mkProject (name p) (mode p) (goal p) (created_at p) (workspace p) (stages p)
            (current_stage p) l (debaters p) (rounds p) (question p).
Definition set_rounds (l : list Round) (p : Project) : Project :=
  mkProject (name p) (mode p) (goal p) (created_at p) (workspace p) (stages p)
            (current_stage p) (tasks p) (debaters p) l (question p).

Definition set_phase (ph : Phase) (r : Round) : Round :=
  mkRound (round_number r) ph (started_at r) (responses r).
Definition set_responses (l : list Response) (r : Round) : Round :=
  mkRound (round_number r) (phase r) (started_at r) l.

(** ** Data constructors *)

(** [x or y] on strings: the empty string is falsy. *)
Definition str_or (x y : string) : string := if decide (x = "") then y else x.

Definition make_stage (stage_id desc agent : string) : Stage :=
  mkItem stage_id (str_or agent stage_id) desc tt pending "" "" "".

Definition make_task (task_id agent desc : string) (deps : list string) : Task :=
  mkItem task_id (str_or agent task_id) desc deps pending "" "" "".

(** ** DAG helpers *)

(** [{t["id"] for t in tasks if t["status"] == "done"}]. *)
Definition done_ids (ts : list Task) : gset string :=
  list_to_set (i_id <$> filter (λ t, i_status t = done) ts).

(** The loop of [compute_ready_tasks] over the tasks, [ready] being built by
    [append]. *)
Fixpoint ready_loop (dids : gset string) (ts : list Task) : list Task :=
  match ts with
  | [] => []
  | t :: rest =>
      if decide (i_status t ≠ pending) then ready_loop dids rest
      else if forallb (λ d, bool_decide (d ∈ dids)) (dependencies t)
           then t :: ready_loop dids rest
           else ready_loop dids rest
  end.

Definition compute_ready_tasks (proj : Project) : list Task :=
  ready_loop (done_ids (tasks proj)) (tasks proj).

(** A Python [dict] from task ids to dependency lists: the table, and the keys
    in the order in which they were first inserted (the order in which the
    dict is iterated). *)
Record pydict := mkDict {
  keys : list string;
  table : gmap string (list string);
}.

Definition dict_empty : pydict := mkDict [] ∅.

(** [d[k] = v]: a new key goes last, an old key keeps its place. *)
Definition dict_set (k : string) (v : list string) (d : pydict) : pydict :=
  mkDict (if decide (k ∈ dom (table d)) then keys d else keys d ++ [k])
         (<[k := v]> (table d)).

(** [d.get(k, [])]. *)
Definition dict_get (d : pydict) (k : string) : list string :=
  default [] (table d !! k).

(** [{t["id"]: t.get("dependencies", []) for t in tasks}]. *)
Definition deps_dict (ts : list Task) : pydict :=
  foldl (λ d t, dict_set (i_id t) (dependencies t) d) dict_empty ts.

(** The variables [visited], [stack] and [cycles] that [dfs] closes over. *)
Record dfs_state := mkDfs {
  visited : gset string;
  stack : gset string;
  cycles : list string;
}.

Definition dfs_init : dfs_state := mkDfs ∅ ∅ [].

(** [visited.add(node); stack.add(node)]. *)
Definition dfs_enter (node : string) (s : dfs_state) : dfs_state :=
  mkDfs ({[node]} ∪ visited s) ({[node]} ∪ stack s) (cycles s).

(** [stack.discard(node)]. *)
Definition dfs_leave (node : string) (s : dfs_state) : dfs_state :=
  mkDfs (visited s) (stack s ∖ {[node]}) (cycles s).

(** [cycles.append(f"{node} -> {dep}")]. *)
Definition dfs_report (node dep : string) (s : dfs_state) : dfs_state :=
  mkDfs (visited s) (stack s) (cycles s ++ [node +:+ " -> " +:+ dep]).

(** The body of [dfs(node)] after the two [add]s: the [for dep in ...] loop
    and what follows it. [rec] is the recursive call [dfs]. *)
Fixpoint dfs_loop (rec : string → dfs_state → option (bool * dfs_state))
    (node : string) (deps : list string) (s : dfs_state)
    : option (bool * dfs_state) :=
  match deps with
  | [] => Some (false, dfs_leave node s)
  | dep :: rest =>
      if decide (dep ∉ visited s) then
        match rec dep s with
        | Some (true, s') => Some (true, s')
        | Some (false, s') => dfs_loop rec node rest s'
        | None => None
        end
      else if decide (dep ∈ stack s) then Some (true, dfs_report node dep s)
      else dfs_loop rec node rest s
  end.

(** [dfs(node)]. The recursion of the source is on the call depth, which
    [fuel] bounds: [None] is a call chain deeper than [fuel]. *)
Fixpoint dfs (fuel : nat) (g : pydict) (node : string) (s : dfs_state)
    : option (bool * dfs_state) :=
  match fuel with
  | O => None
  | S fuel' => dfs_loop (dfs fuel' g) node (dict_get g node) (dfs_enter node s)
  end.

(** [for tid in tasks: if tid not in visited: dfs(tid)]. *)
Fixpoint dfs_roots (fuel : nat) (g : pydict) (tids : list string)
    (s : dfs_state) : option dfs_state :=
  match tids with
  | [] => Some s
  | tid :: rest =>
      if decide (tid ∉ visited s) then
        match dfs fuel g tid s with
        | Some (_, s') => dfs_roots fuel g rest s'
        | None => None
        end
      else dfs_roots fuel g rest s
  end.

Definition detect_cycles_fuel (fuel : nat) (proj : Project) : option (list string) :=
  let g := deps_dict (tasks proj) in
  cycles <$> dfs_roots fuel g (keys g) dfs_init.

(** Every id that occurs in the dict, as a key or as a dependency. *)
Definition dict_nodes (g : pydict) : gset string :=
  dom (table g) ∪ ⋃ ((λ kv, list_to_set kv.2) <$> map_to_list (table g)).

(** A call chain of [dfs] visits a new id at each call, so it is no deeper
    than the number of ids: with this much fuel the traversal returns, and
    with more it returns the same ([detect_cycles_dict] below). The limit the
    interpreter puts on the call depth is not part of the embedding. *)
Definition dfs_depth (proj : Project) : nat :=
  size (dict_nodes (deps_dict (tasks proj))).

Definition detect_cycles (proj : Project) : option (list string) :=
  detect_cycles_fuel (dfs_depth proj) proj.

(** ** Persistence *)

(** The data directory: one document per project name. *)
Abbreviation Store := (gmap string Project).

(** [load_project]: [None] is the exit of a missing file. *)
Definition load_project (nm : string) (dir : Store) : option Project := dir !! nm.

(** [save_project]: the whole document is replaced. *)
Definition save_project (nm : string) (data : Project) (dir : Store) : Store :=
  <[nm := data]> dir.

(** ** Commands *)

(** The messages that end a command with [sys.exit(1)]; [RecursionError] is
    a traversal that ran out of call depth, which [cmd_add] never meets
    ([cmd_add_returns] below). *)
Inductive Error :=
  | ProjectNotFound (nm : string)
  | ProjectExists (nm : string)
  | PipelineRequired
  | WrongMode (command : string)
  | InvalidStatus (s : string)
  | StageNotFound (target : string)
  | TaskNotFound (target : string)
  | ItemNotFound (target : string)
  | UpdateNotSupported (m : Mode)
  | CycleDetected (edges : list string)
  | NoActiveRound
  | NoRoundData
  | RecursionError.

(** The lines a command prints on its way to a normal return. *)
Inductive Out :=
  | ProjectCreated (nm : string) (m : Mode)
  | TaskAdded (task_id : string) (deps : list string)
  | DebaterAdded (debater_id : string)
  | AutoAdvance (stage_id : string)
  | Unlocked (ids : list string)
  | StatusSet (target : string) (s : Status)
  | ResultRecorded (target : string)
  | ReadyTasks (ready : list Task)
  | AllTasksDone
  | NothingReady
  | RoundStarted (n : Z) (q : string) (n_debaters : nat)
  | ResponseSubmitted (debater_id : option string) (n : Z) (ph : Phase)
  | CrossReview (initial_responses : list Response)
  | ReviewPrompt (debater_id : string) (others : list Response)
  | Synthesis (n_initial n_reviews : nat)
  | NoRounds
  | RoundStatus (n : Z) (ph : Phase) (answered : list (string * bool))
  | ProjectReset (nm : string).

(** The state in which a command ends: the directory, the document the
    command holds in memory ([None] when none was loaded), the lines printed,
    and the error of [sys.exit(1)] ([None] for a normal return). *)
Record Run := mkRun {
  disk : Store;
  memory : option Project;
  output : list Out;
  exit : option Error;
}.

Definition halt (dir : Store) (mem : option Project) (e : Error) : Run :=
  mkRun dir mem [] (Some e).

(** [save_project(name, proj)] followed by the closing prints and the return. *)
Definition commit (dir : Store) (nm : string) (proj : Project) (out : list Out)
    : Run :=
  mkRun (save_project nm proj dir) (Some proj) out None.

(** The parsed arguments of [init]; [init_pipeline] is the pipeline split at the
    commas, stripped, without its empty entries. *)
Record InitArgs := mkInitArgs {
  init_mode : Mode;
  init_goal : string;
  init_pipeline : list string;
  init_workspace : string;
  init_force : bool;
}.

Definition cmd_init (now : string) (project : string) (a : InitArgs)
    (dir : Store) : Run :=
  if decide (is_Some (dir !! project) ∧ init_force a = false)
  then halt dir None (ProjectExists project)
  else
    let proj := mkProject project (init_mode a) (init_goal a) now
                          (init_workspace a) [] 0 [] [] [] None in
    match init_mode a with
    | linear =>
        match init_pipeline a with
        | [] => halt dir (Some proj) PipelineRequired
        | sts =>
            commit dir project
              (set_current_stage 0
                 (set_stages ((λ s, make_stage s "" "") <$> sts) proj))
              [ProjectCreated project linear]
        end
    | dag => commit dir project proj [ProjectCreated project dag]
    | debate =>
        commit dir project
          (mkProject project debate (init_goal a) now (init_workspace a)
                     [] 0 [] [] [] (Some (init_goal a)))
          [ProjectCreated project debate]
    end.

(** [cmd_add]; [deps] is [--deps] split at the commas, stripped, without its
    empty entries. The task is appended to the document in memory, then the
    cycles are looked for, and the document is saved when there is none. *)
Definition cmd_add (project task_id agent desc : string) (deps : list string)
    (dir : Store) : Run :=
  match load_project project dir with
  | None => halt dir None (ProjectNotFound project)
  | Some proj =>
      if decide (mode proj ≠ dag) then halt dir (Some proj) (WrongMode "add")
      else
        let task := make_task task_id agent desc deps in
        let proj := set_tasks (tasks proj ++ [task]) proj in
        match detect_cycles proj with
        | None => halt dir (Some proj) RecursionError
        | Some [] => commit dir project proj [TaskAdded task_id deps]
        | Some cs => halt dir (Some proj) (CycleDetected cs)
        end
  end.

Definition cmd_add_debater (now : string) (project debater_id agent perspective
    : string) (dir : Store) : Run :=
  match load_project project dir with
  | None => halt dir None (ProjectNotFound project)
  | Some proj =>
      if decide (mode proj ≠ debate)
      then halt dir (Some proj) (WrongMode "add-debater")
      else
        let debater :=
          mkDebater debater_id (str_or agent debater_id) perspective now in
        commit dir project
          (mkProject (name proj) (mode proj) (goal proj) (created_at proj)
                     (workspace proj) (stages proj) (current_stage proj)
                     (tasks proj) (debaters proj ++ [debater]) (rounds proj)
                     (question proj))
          [DebaterAdded debater_id]
  end.

Definition cmd_ready (project : string) (dir : Store) : Run :=
  match load_project project dir with
  | None => halt dir None (ProjectNotFound project)
  | Some proj =>
      if decide (mode proj ≠ dag) then halt dir (Some proj) (WrongMode "ready")
      else
        match compute_ready_tasks proj with
        | [] =>
            let done_count :=
              length (filter (λ t, i_status t = done) (tasks proj)) in
            let total := length (tasks proj) in
            mkRun dir (Some proj)
              [if bool_decide (done_count = total ∧ (0 < total)%nat)
               then AllTasksDone else NothingReady] None
        | ready => mkRun dir (Some proj) [ReadyTasks ready] None
        end
  end.

(** The body of the [if s["id"] == target_id] of [cmd_update], up to the
    auto-advance: the status, and the timestamp that goes with it. *)
Definition apply_status {D} (now : string) (st : Status) (x : Item D) : Item D :=
  let x := set_i_status st x in
  match st with
  | in_progress => set_i_assigned_at now x
  | done | failed | skipped => set_i_completed_at now x
  | pending => x
  end.

(** [for i, s in enumerate(items): if s["id"] == target_id: ...; break]:
    the first item with the id, and its index. *)
Definition find_item {D} (target_id : string) (items : list (Item D))
    : option (nat * Item D) :=
  list_find (λ x, i_id x = target_id) items.

Definition cmd_update (now : string) (project target_id status : string)
    (dir : Store) : Run :=
  match load_project project dir with
  | None => halt dir None (ProjectNotFound project)
  | Some proj =>
      match parse_status status with
      | None => halt dir (Some proj) (InvalidStatus status)
      | Some st =>
          match mode proj with
          | linear =>
              let sts := stages proj in
              match find_item target_id sts with
              | None => halt dir (Some proj) (StageNotFound target_id)
              | Some (i, s) =>
                  let sts := <[i := apply_status now st s]> sts in
                  let proj1 := set_stages sts proj in
                  if bool_decide (st = done ∧ Z.of_nat i = current_stage proj)
                  then
                    commit dir project
                      (set_current_stage (Z.of_nat i + 1) proj1)
                      (match sts !! (i + 1)%nat with
                       | Some nxt => [AutoAdvance (i_id nxt)]
                       | None => []
                       end ++ [StatusSet target_id st])
                  else commit dir project proj1 [StatusSet target_id st]
              end
          | dag =>
              let ts := tasks proj in
              match find_item target_id ts with
              | None => halt dir (Some proj) (TaskNotFound target_id)
              | Some (i, t) =>
                  let proj1 :=
                    set_tasks (<[i := apply_status now st t]> ts) proj in
                  let newly_ready :=
                    if decide (st = done) then compute_ready_tasks proj1
                    else [] in
                  commit dir project proj1
                    (match newly_ready with
                     | [] => []
                     | _ => [Unlocked (i_id <$> newly_ready)]
                     end ++ [StatusSet target_id st])
              end
          | debate => halt dir (Some proj) (UpdateNotSupported debate)
          end
      end
  end.

(** The body of the [if item["id"] == target_id] of [cmd_result]. *)
Definition record_item {D} (now result_text : string) (x : Item D) : Item D :=
  let x := set_i_result result_text x in
  if decide (i_status x = pending)
  then set_i_assigned_at now (set_i_status in_progress x)
  else x.

(** The loop of [cmd_result] over the items: [None] when [found] stays false. *)
Definition record_result {D} (now target_id result_text : string)
    (items : list (Item D)) : option (list (Item D)) :=
  match find_item target_id items with
  | None => None
  | Some (i, x) => Some (<[i := record_item now result_text x]> items)
  end.

Definition cmd_result (now : string) (project target_id result_text : string)
    (dir : Store) : Run :=
  match load_project project dir with
  | None => halt dir None (ProjectNotFound project)
  | Some proj =>
      if decide (mode proj = linear) then
        match record_result now target_id result_text (stages proj) with
        | None => halt dir (Some proj) (ItemNotFound target_id)
        | Some sts =>
            commit dir project (set_stages sts proj) [ResultRecorded target_id]
        end
      else
        match record_result now target_id result_text (tasks proj) with
        | None => halt dir (Some proj) (ItemNotFound target_id)
        | Some ts =>
            commit dir project (set_tasks ts proj) [ResultRecorded target_id]
        end
  end.

(** The [action] of [round], one of the choices the parser admits. *)
Inductive RoundAction :=
  | round_start
  | round_submit (debater_id : option string) (text : string)
  | round_cross_review
  | round_synthesize
  | round_status.

(** [rounds[-1]] changed in place. *)
Definition alter_last {A} (f : A → A) (l : list A) : list A :=
  alter f (pred (length l)) l.

Definition cmd_round (now : string) (project : string) (action : RoundAction)
    (dir : Store) : Run :=
  match load_project project dir with
  | None => halt dir None (ProjectNotFound project)
  | Some proj =>
      if decide (mode proj ≠ debate) then halt dir (Some proj) (WrongMode "round")
      else
        let rs := rounds proj in
        let ds := debaters proj in
        match action with
        | round_start =>
            let new_round :=
              mkRound (Z.of_nat (length rs) + 1) initial now [] in
            commit dir project (set_rounds (rs ++ [new_round]) proj)
              [RoundStarted (round_number new_round)
                 (default (goal proj) (question proj)) (length ds)]
        | round_submit debater_id text =>
            match last rs with
            | None => halt dir (Some proj) NoActiveRound
            | Some current_round =>
                let response :=
                  mkResponse debater_id text now (phase current_round) in
                commit dir project
                  (set_rounds
                     (alter_last
                        (λ r, set_responses (responses r ++ [response]) r) rs)
                     proj)
                  [ResponseSubmitted debater_id (round_number current_round)
                     (phase current_round)]
            end
        | round_cross_review =>
            match last rs with
            | None => halt dir (Some proj) NoRoundData
            | Some current_round =>
                let resps :=
                  filter (λ r, r_phase r = initial) (responses current_round) in
                commit dir project
                  (set_rounds (alter_last (set_phase cross_review) rs) proj)
                  (CrossReview resps ::
                   omap (λ d,
                           match filter (λ r, r_debater_id r ≠ Some (d_id d))
                                        resps with
                           | [] => None
                           | others => Some (ReviewPrompt (d_id d) others)
                           end) ds)
            end
        | round_synthesize =>
            match last rs with
            | None => halt dir (Some proj) NoRoundData
            | Some current_round =>
                let all_responses := responses current_round in
                commit dir project
                  (set_rounds (alter_last (set_phase synthesis) rs) proj)
                  [Synthesis
                     (length (filter (λ r, r_phase r = initial) all_responses))
                     (length (filter (λ r, r_phase r = cross_review)
                                     all_responses))]
            end
        | round_status =>
            match last rs with
            | None => mkRun dir (Some proj) [NoRounds] None
            | Some current_round =>
                let responded :=
                  r_debater_id <$>
                    filter (λ r, r_phase r = phase current_round)
                           (responses current_round) in
                mkRun dir (Some proj)
                  [RoundStatus (round_number current_round)
                     (phase current_round)
                     ((λ d, (d_id d, bool_decide (Some (d_id d) ∈ responded)))
                        <$> ds)] None
            end
        end
  end.

(** The body of the loops of [cmd_reset]. *)
Definition reset_item {D} (x : Item D) : Item D :=
  mkItem (i_id x) (i_agent x) (i_description x) (i_more x) pending "" "" "".

Definition cmd_reset (project : string) (dir : Store) : Run :=
  match load_project project dir with
  | None => halt dir None (ProjectNotFound project)
  | Some proj =>
      commit dir project
        match mode proj with
        | linear =>
            set_current_stage 0 (set_stages (reset_item <$> stages proj) proj)
        | dag => set_tasks (reset_item <$> tasks proj) proj
        | debate => set_rounds [] proj
        end
        [ProjectReset project]
  end.

(** The commands that change a project, as [main] dispatches them. The
    commands that only show one ([status], [next], [graph], [log], [list])
    leave the directory as it is. *)
Inductive Command :=
  | Init (project : string) (a : InitArgs)
  | Add (project task_id agent desc : string) (deps : list string)
  | AddDebater (project debater_id agent perspective : string)
  | Ready (project : string)
  | Update (project target_id status : string)
  | Result (project target_id result_text : string)
  | RoundCmd (project : string) (action : RoundAction)
  | Reset (project : string).

(** [cmd_map[args.command](args)], at the clock reading [now]. *)
Definition run (now : string) (c : Command) (dir : Store) : Run :=
  match c with
  | Init project a => cmd_init now project a dir
  | Add project task_id agent desc deps =>
      cmd_add project task_id agent desc deps dir
  | AddDebater project debater_id agent perspective =>
      cmd_add_debater now project debater_id agent perspective dir
  | Ready project => cmd_ready project dir
  | Update project target_id status =>
      cmd_update now project target_id status dir
  | Result project target_id result_text =>
      cmd_result now project target_id result_text dir
  | RoundCmd project action => cmd_round now project action dir
  | Reset project => cmd_reset project dir
  end.

(** The directory after a sequence of commands, each at its clock reading;
    a command that exits leaves it as it was. *)
Definition run_all (cs : list (string * Command)) (dir : Store) : Store :=
  foldl (λ d c, disk (run c.1 c.2 d)) dir cs.

(** ** The notions the properties are stated with *)

Definition task_ids (proj : Project) : list string := i_id <$> tasks proj.

(** The dependency relation of a task sequence: [x -> d] when some task with
    id [x] lists [d]. *)
Definition depends_on (ts : list Task) (x d : string) : Prop :=
  ∃ t, t ∈ ts ∧ i_id t = x ∧ d ∈ dependencies t.

Definition acyclic (ts : list Task) : Prop := ∀ x, ¬ tc (depends_on ts) x x.

(** The ready condition in the words of the specification: the status is
    [pending], and every dependency id is the id of a task that is [done]. *)
Definition is_ready (ts : list Task) (t : Task) : Prop :=
  i_status t = pending
  ∧ Forall (λ d, Exists (λ u, i_id u = d ∧ i_status u = done) ts)
           (dependencies t).

#[global] Instance is_ready_dec ts t : Decision (is_ready ts t).
Proof. unfold is_ready. apply _. Defined.

(** The place of a phase in the order initial, cross-review, synthesis. *)
Definition phase_rank (ph : Phase) : nat :=
  match ph with initial => 0 | cross_review => 1 | synthesis => 2 end.

(** The ids of the unlock notification among the printed lines. *)
Definition unlocked (out : list Out) : list string :=
  mjoin (omap (λ o, match o with Unlocked ids => Some ids | _ => None end) out).

(** The stage ids of the advance notification among the printed lines. *)
Definition advanced (out : list Out) : list string :=
  omap (λ o, match o with AutoAdvance sid => Some sid | _ => None end) out.

(** The edge [x -> d] of the dict that [detect_cycles] builds: [d] is listed
    under the key [x]. *)
Definition edge (g : pydict) (x d : string) : Prop := d ∈ dict_get g x.

Definition cyclic (g : pydict) : Prop := ∃ x, tc (edge g) x x.

(** Visited and no longer on the stack. *)
Definition finished (s : dfs_state) (x : string) : Prop :=
  x ∈ visited s ∧ x ∉ stack s.

(** The invariant of the traversal while no cycle has been reported: the
    finished ids are closed under the edges and lie on no cycle. *)
Record dfs_inv (g : pydict) (s : dfs_state) : Prop := {
  inv_stack : stack s ⊆ visited s;
  inv_closed : ∀ x d, finished s x → edge g x d → finished s d;
  inv_acyclic : ∀ x, finished s x → ¬ tc (edge g) x x;
}.

(** What a call [dfs(node)] from state [s] that returns [r] in state [s']
    has done. *)
Definition dfs_post (g : pydict) (node : string) (s : dfs_state) (r : bool)
    (s' : dfs_state) : Prop :=
  if r then cyclic g ∧ cycles s' ≠ []
  else visited s ⊆ visited s' ∧ node ∈ visited s' ∧ stack s' ≡ stack s
       ∧ cycles s' = cycles s ∧ dfs_inv g s'.

Definition rec_sound (g : pydict)
    (rec : string → dfs_state → option (bool * dfs_state)) : Prop :=
  ∀ node s r s',
    rec node s = Some (r, s') →
    node ∉ visited s → dfs_inv g s →
    (∀ x, x ∈ stack s → rtc (edge g) x node) →
    dfs_post g node s r s'.

(** The keys of a dict are the ids its table binds. *)
Definition dict_wf (g : pydict) : Prop :=
  ∀ k, k ∈ keys g ↔ k ∈ dom (table g).

(** A call of [rec] returns, and visits more, whenever at most [n] ids are
    yet to visit. *)
Definition rec_total (g : pydict) (n : nat)
    (rec : string → dfs_state → option (bool * dfs_state)) : Prop :=
  ∀ node s,
    node ∈ dict_nodes g → node ∉ visited s →
    (size (dict_nodes g ∖ visited s) ≤ n)%nat →
    ∃ r s', rec node s = Some (r, s') ∧ visited s ⊆ visited s'
            ∧ node ∈ visited s'.

(** Every project of the directory has pairwise distinct task ids. *)
Definition ids_distinct (dir : Store) : Prop :=
  ∀ nm p, dir !! nm = Some p → NoDup (task_ids p).

(** The command, when it is an [add], adds an id the project does not have. *)
Definition adds_fresh_id (c : Command) (dir : Store) : Prop :=
  match c with
  | Add project task_id _ _ _ =>
      ∀ p, dir !! project = Some p → task_id ∉ task_ids p
  | _ => True
  end.

(** What [cmd_result] does to the item it finds: the result is the text; a
    pending item becomes in-progress, assigned now; nothing else changes. *)
Definition recorded {D} (now result_text : string) (x x' : Item D) : Prop :=
  i_result x' = result_text
  ∧ (i_status x = pending →
       i_status x' = in_progress ∧ i_assigned_at x' = now)
  ∧ (i_status x ≠ pending →
       i_status x' = i_status x ∧ i_assigned_at x' = i_assigned_at x)
  ∧ i_id x' = i_id x ∧ i_agent x' = i_agent x
  ∧ i_description x' = i_description x ∧ i_more x' = i_more x
  ∧ i_completed_at x' = i_completed_at x.

(** ** Example projects *)

Definition dag_args : InitArgs := mkInitArgs dag "" [] "" false.


(** The task that closes the cycle in the examples. *)
Definition back_task : Task := make_task "b" "" "" ["a"].


(** [init p --mode dag], [add a --deps b]. *)
Definition open_script : list (string * Command) :=
  [("t0", Init "p" dag_args); ("t1", Add "p" "a" "" "" ["b"])].

Definition open_project : Project :=
  mkProject "p" dag "" "t0" "" [] 0 [make_task "a" "" "" ["b"]] [] [] None.


Definition twice_project : Project :=
  mkProject "p" dag "" "t0" "" [] 0
    [make_task "a" "" "" ["b"]; make_task "a" "" "" []] [] [] None.

(** Two tasks in a row, [a] before [b]. *)
Definition chain_project : Project :=
  mkProject "p" dag "" "t0" "" [] 0
    [make_task "a" "" "" []; make_task "b" "" "" ["a"]] [] [] None.

(** [init p --mode linear --pipeline x,y,z], then [update p x done]. *)
Definition pipeline_script : list (string * Command) :=
  [("t0", Init "p" (mkInitArgs linear "" ["x"; "y"; "z"] "" false));
   ("t1", Update "p" "x" "done")].

Definition pipeline_project : Project :=
  mkProject "p" linear "" "t0" ""
    [mkItem "x" "x" "" tt done "" "" "t1"; make_stage "y" "" "";
     make_stage "z" "" ""] 1 [] [] [] None.

(** [init p --mode debate], [round start], [round synthesize]. *)
Definition debate_script : list (string * Command) :=
  [("t0", Init "p" (mkInitArgs debate "q" [] "" false));
   ("t1", RoundCmd "p" round_start); ("t2", RoundCmd "p" round_synthesize)].

Definition debate_project : Project :=
  mkProject "p" debate "q" "t0" "" [] 0 [] []
    [mkRound 1 synthesis "t1" []] (Some "q").

(** Two independent tasks and one that waits for the first. *)
Definition fork_project : Project :=
  mkProject "p" dag "" "t0" "" [] 0
    [make_task "a" "" "" []; make_task "b" "" "" [];
     make_task "c" "" "" ["a"]] [] [] None.

(** ** [cmd_next] *)

(** [l[i]] for a Python [int]: a negative index counts from the end, and an
    index out of range is an [IndexError] ([None]). *)
Definition py_index {A} (l : list A) (i : Z) : option A :=
  if decide (0 ≤ i)%Z then l !! Z.to_nat i
  else if decide (- Z.of_nat (length l) ≤ i)%Z
       then l !! Z.to_nat (Z.of_nat (length l) + i)
       else None.

(** What [cmd_next] ends with: an exit, the line that all stages are done,
    the stage it shows, or the uncaught [IndexError] of [stages[current]]. *)
Inductive NextResult :=
  | NextExit (e : Error)
  | AllStagesDone
  | NextStage (s : Stage)
  | NextIndexError.

Definition cmd_next (project : string) (dir : Store) : NextResult :=
  match load_project project dir with
  | None => NextExit (ProjectNotFound project)
  | Some proj =>
      if decide (mode proj ≠ linear) then NextExit (WrongMode "next")
      else
        let sts := stages proj in
        let current := current_stage proj in
        if decide (Z.of_nat (length sts) ≤ current)%Z then AllStagesDone
        else
          match py_index sts current with
          | Some stage => NextStage stage
          | None => NextIndexError
          end
  end.

(** ** Further notions *)

(** The project a command names. *)
Definition command_project (c : Command) : string :=
  match c with
  | Init project _ | Add project _ _ _ _ | AddDebater project _ _ _
  | Ready project | Update project _ _ | Result project _ _
  | RoundCmd project _ | Reset project => project
  end.

Definition is_init (c : Command) : Prop :=
  match c with Init _ _ => True | _ => False end.

Definition is_reset (c : Command) : Prop :=
  match c with Reset _ => True | _ => False end.

(** The cursor of a project points at a stage or just past the last one. *)
Definition cursor_ok (p : Project) : Prop :=
  (0 ≤ current_stage p ≤ Z.of_nat (length (stages p)))%Z.

(** The [k]-th round of a project carries the number [k + 1]. *)
Definition rounds_numbered (p : Project) : Prop :=
  ∀ k r, rounds p !! k = Some r → round_number r = Z.of_nat k + 1.

(** Every dependency of a task is the id of a task. *)
Definition deps_exist (ts : list Task) : Prop :=
  ∀ t d, t ∈ ts → d ∈ dependencies t → d ∈ i_id <$> ts.

(** What of a task [detect_cycles] reads: its id and its dependencies. *)
Definition task_graph (ts : list Task) : list (string * list string) :=
  (λ t, (i_id t, dependencies t)) <$> ts.

(** A call [dfs(node)] that returns [True] has appended one line, the text of
    an edge [n -> d] of the dict whose target [d] leads back to [n]. *)
Definition rec_reports (g : pydict)
    (rec : string → dfs_state → option (bool * dfs_state)) : Prop :=
  ∀ node s s',
    rec node s = Some (true, s') →
    node ∉ visited s → dfs_inv g s →
    (∀ x, x ∈ stack s → rtc (edge g) x node) →
    ∃ n d, cycles s' = cycles s ++ [n +:+ " -> " +:+ d]
           ∧ edge g n d ∧ rtc (edge g) d n.

(** A debate with two debaters and their first answers. *)
Definition panel_project : Project :=
  mkProject "p" debate "q" "t0" "" [] 0 []
    [mkDebater "ann" "ann" "" "t0"; mkDebater "bob" "bob" "" "t0"]
    [mkRound 1 initial "t1"
       [mkResponse (Some "ann") "yes" "t2" initial;
        mkResponse (Some "bob") "no" "t3" initial]] (Some "q").

(** The project [cmd_init] saves. *)
Definition init_project (now project : string) (a : InitArgs) : Project :=
  match init_mode a with
  | linear =>
      set_current_stage 0
        (set_stages ((λ s, make_stage s "" "") <$> init_pipeline a)
           (mkProject project linear (init_goal a) now (init_workspace a)
                      [] 0 [] [] [] None))
  | dag =>
      mkProject project dag (init_goal a) now (init_workspace a)
                [] 0 [] [] [] None
  | debate =>
      mkProject project debate (init_goal a) now (init_workspace a)
                [] 0 [] [] [] (Some (init_goal a))
  end.

(** The changes a command other than [init] saves: [edit now c p p'] when
    [c], run on the loaded project [p], saves [p']. *)
Inductive edit (now : string) : Command → Project → Project → Prop :=
  | edit_add project task_id agent desc deps p :
      mode p = dag →
      detect_cycles
        (set_tasks (tasks p ++ [make_task task_id agent desc deps]) p)
        = Some [] →
      edit now (Add project task_id agent desc deps) p
        (set_tasks (tasks p ++ [make_task task_id agent desc deps]) p)
  | edit_add_debater project debater_id agent perspective p :
      mode p = debate →
      edit now (AddDebater project debater_id agent perspective) p
        (mkProject (name p) (mode p) (goal p) (created_at p) (workspace p)
           (stages p) (current_stage p) (tasks p)
           (debaters p
            ++ [mkDebater debater_id (str_or agent debater_id) perspective now])
           (rounds p) (question p))
  | edit_update_stage project target status st i s p :
      mode p = linear →
      parse_status status = Some st →
      find_item target (stages p) = Some (i, s) →
      edit now (Update project target status) p
        (if bool_decide (st = done ∧ Z.of_nat i = current_stage p)
         then set_current_stage (Z.of_nat i + 1)
                (set_stages (<[i := apply_status now st s]> (stages p)) p)
         else set_stages (<[i := apply_status now st s]> (stages p)) p)
  | edit_update_task project target status st i t p :
      mode p = dag →
      parse_status status = Some st →
      find_item target (tasks p) = Some (i, t) →
      edit now (Update project target status) p
        (set_tasks (<[i := apply_status now st t]> (tasks p)) p)
  | edit_result_stage project target text i s p :
      mode p = linear →
      find_item target (stages p) = Some (i, s) →
      edit now (Result project target text) p
        (set_stages (<[i := record_item now text s]> (stages p)) p)
  | edit_result_task project target text i t p :
      mode p ≠ linear →
      find_item target (tasks p) = Some (i, t) →
      edit now (Result project target text) p
        (set_tasks (<[i := record_item now text t]> (tasks p)) p)
  | edit_round_start project p :
      mode p = debate →
      edit now (RoundCmd project round_start) p
        (set_rounds
           (rounds p
            ++ [mkRound (Z.of_nat (length (rounds p)) + 1) initial now []]) p)
  | edit_round_submit project debater_id text current_round p :
      mode p = debate →
      last (rounds p) = Some current_round →
      edit now (RoundCmd project (round_submit debater_id text)) p
        (set_rounds
           (alter_last
              (λ r, set_responses
                      (responses r
                       ++ [mkResponse debater_id text now (phase current_round)])
                      r)
              (rounds p)) p)
  | edit_round_cross_review project current_round p :
      mode p = debate →
      last (rounds p) = Some current_round →
      edit now (RoundCmd project round_cross_review) p
        (set_rounds (alter_last (set_phase cross_review) (rounds p)) p)
  | edit_round_synthesize project current_round p :
      mode p = debate →
      last (rounds p) = Some current_round →
      edit now (RoundCmd project round_synthesize) p
        (set_rounds (alter_last (set_phase synthesis) (rounds p)) p)
  | edit_reset project p :
      edit now (Reset project) p
        match mode p with
        | linear =>
            set_current_stage 0 (set_stages (reset_item <$> stages p) p)
        | dag => set_tasks (reset_item <$> tasks p) p
        | debate => set_rounds [] p
        end.

(** * Properties *)

(** ** The traversal of [detect_cycles] *)

Section dfs_correct.
Variable g : pydict.

Lemma finished_rtc s x y :
  dfs_inv g s → finished s x → rtc (edge g) x y → finished s y.
Proof.
  intros Hinv Hx Hxy. induction Hxy as [|x y z Hxy _ IH]; [done|].
  apply IH. by eapply inv_closed.
Qed.

Lemma dfs_inv_init : dfs_inv g dfs_init.
Proof.
  split; simpl.
  - done.
  - intros x d [Hx _]. set_solver.
  - intros x [Hx _]. set_solver.
Qed.

Lemma dfs_inv_enter node s :
  node ∉ visited s → dfs_inv g s → dfs_inv g (dfs_enter node s).
Proof.
  intros Hnode [Hst Hcl Hac].
  assert (Hfin : ∀ x, finished (dfs_enter node s) x → finished s x).
  { intros x [Hx Hx']. simpl in *. split; set_solver. }
  split.
  - simpl. set_solver.
  - intros x d Hx Hxd. destruct (Hcl x d (Hfin x Hx) Hxd) as [Hd Hd'].
    split; simpl; [set_solver|].
    intros [->%elem_of_singleton|?]%elem_of_union; done.
  - intros x Hx. by apply Hac, Hfin.
Qed.

Lemma dfs_inv_leave node s :
  node ∈ stack s → dfs_inv g s →
  (∀ d, edge g node d → finished s d) →
  dfs_inv g (dfs_leave node s).
Proof.
  intros Hnode Hinv Hsucc. pose proof Hinv as [Hst Hcl Hac].
  assert (Hfin : ∀ x, finished (dfs_leave node s) x → finished s x ∨ x = node).
  { intros x [Hx Hx']. simpl in *.
    destruct (decide (x = node)) as [->|Hne]; [by right|left].
    split; [done|]. set_solver. }
  assert (Hkeep : ∀ x, finished s x → finished (dfs_leave node s) x).
  { intros x [Hx Hx']. split; simpl; set_solver. }
  split.
  - simpl. set_solver.
  - intros x d [Hx| ->]%Hfin Hxd; apply Hkeep; eauto.
  - intros x [Hx| ->]%Hfin; [by apply Hac|].
    intros Hcyc.
    assert (Hfn : finished s node); [|by destruct Hfn].
    inversion Hcyc as [? ? Hnd|? d ? Hnd Hdn]; subst.
    + by apply Hsucc.
    + eapply finished_rtc; [done|by apply Hsucc|by apply tc_rtc].
Qed.

Lemma dfs_loop_sound rec node deps s r s' :
  rec_sound g rec →
  dfs_loop rec node deps s = Some (r, s') →
  node ∈ stack s → dfs_inv g s →
  (∀ x, x ∈ stack s → rtc (edge g) x node) →
  (∀ d, d ∈ deps → edge g node d) →
  (∀ d, edge g node d → d ∈ deps ∨ finished s d) →
  if r then cyclic g ∧ cycles s' ≠ []
  else visited s ⊆ visited s' ∧ stack s' ≡ stack s ∖ {[node]}
       ∧ cycles s' = cycles s ∧ dfs_inv g s'.
Proof.
  intros Hrec. revert s.
  induction deps as [|dep rest IH]; intros s Hrun Hnode Hinv Hpath Hdeps Hsucc.
  - simpl in Hrun. injection Hrun as <- <-. split_and!; try done.
    apply dfs_inv_leave; [done..|].
    intros d Hd. destruct (Hsucc d Hd) as [Hin|?]; [|done]. by inversion Hin.
  - simpl in Hrun. assert (Hnd : edge g node dep) by (apply Hdeps; left).
    destruct (decide (dep ∉ visited s)) as [Hnew|Hold].
    + destruct (rec dep s) as [[[] s1]|] eqn:Hcall; [| |done].
      * injection Hrun as <- <-.
        apply (Hrec dep s true s1) in Hcall; [done..|].
        intros x Hx. eapply rtc_r; eauto.
      * apply (Hrec dep s false s1) in Hcall as (Hv & Hdv & Hs & Hc & Hinv1);
          [|done..|intros x Hx; eapply rtc_r; eauto].
        apply IH in Hrun; [|set_solver|done| | |].
        -- destruct r; [done|]. destruct Hrun as (Hv' & Hs' & Hc' & Hinv').
           split_and!; [set_solver|set_solver|congruence|done].
        -- intros x Hx. apply Hpath. set_solver.
        -- intros d Hd. apply Hdeps. by right.
        -- intros d Hd. destruct (Hsucc d Hd) as [Hin|[Hfv Hfs]].
           ++ apply elem_of_cons in Hin as [->|Hin]; [|by left].
              right. split; [done|]. pose proof (inv_stack _ _ Hinv). set_solver.
           ++ right. split; set_solver.
    + destruct (decide (dep ∈ stack s)) as [Hon|Hoff].
      * injection Hrun as <- <-. split.
        -- exists dep. eapply tc_rtc_l; [by apply Hpath|by apply tc_once].
        -- simpl. by destruct (cycles s).
      * apply IH in Hrun; [done..| |].
        -- intros d Hd. apply Hdeps. by right.
        -- intros d Hd. destruct (Hsucc d Hd) as [Hin|?]; [|by right].
           apply elem_of_cons in Hin as [->|Hin]; [|by left].
           right. split; [|done]. by apply dec_stable.
Qed.

Lemma dfs_sound fuel : rec_sound g (dfs fuel g).
Proof.
  induction fuel as [|fuel IH]; intros node s r s' Hrun Hnode Hinv Hpath;
    [done|].
  simpl in Hrun. pose proof (inv_stack _ _ Hinv) as Hst.
  apply (dfs_loop_sound _ _ _ _ _ _ IH) in Hrun.
  - destruct r; [done|]. destruct Hrun as (Hv & Hs & Hc & Hinv').
    simpl in *. split_and!; [set_solver|set_solver|set_solver|done|done].
  - simpl. set_solver.
  - by apply dfs_inv_enter.
  - simpl. intros x [->%elem_of_singleton|Hx]%elem_of_union; [done|].
    by apply Hpath.
  - done.
  - intros d Hd. by left.
Qed.

Lemma dfs_loop_grows rec node deps s r s' :
  (∀ n s r s', rec n s = Some (r, s') → cycles s `prefix_of` cycles s') →
  dfs_loop rec node deps s = Some (r, s') →
  cycles s `prefix_of` cycles s'.
Proof.
  intros Hrec. revert s. induction deps as [|dep rest IH]; intros s Hrun.
  - by injection Hrun as <- <-.
  - simpl in Hrun. repeat case_decide.
    + destruct (rec dep s) as [[[] s1]|] eqn:Hcall; [| |done].
      * injection Hrun as <- <-. by eapply Hrec.
      * etrans; [by eapply Hrec|by apply IH].
    + injection Hrun as <- <-. by apply prefix_app_r.
    + by apply IH.
Qed.

Lemma dfs_grows fuel node s r s' :
  dfs fuel g node s = Some (r, s') → cycles s `prefix_of` cycles s'.
Proof.
  revert node s r s'. induction fuel as [|fuel IH]; intros node s r s' Hrun;
    [done|].
  simpl in Hrun. by apply (dfs_loop_grows _ _ _ _ _ _ IH) in Hrun.
Qed.

Lemma dfs_roots_grows fuel tids s s' :
  dfs_roots fuel g tids s = Some s' → cycles s `prefix_of` cycles s'.
Proof.
  revert s. induction tids as [|tid rest IH]; intros s Hrun; simpl in Hrun.
  - by injection Hrun as <-.
  - case_decide; [|by apply IH].
    destruct (dfs fuel g tid s) as [[r s1]|] eqn:Hcall; [|done].
    etrans; [by eapply dfs_grows|by apply IH].
Qed.

Lemma dfs_roots_sound fuel tids s s' :
  dfs_roots fuel g tids s = Some s' →
  dfs_inv g s → stack s ≡ ∅ → cycles s = [] →
  (cycles s' = [] →
     dfs_inv g s' ∧ stack s' ≡ ∅ ∧ visited s ⊆ visited s'
     ∧ ∀ t, t ∈ tids → t ∈ visited s')
  ∧ (cycles s' ≠ [] → cyclic g).
Proof.
  revert s. induction tids as [|tid rest IH]; intros s Hrun Hinv Hst Hcs;
    simpl in Hrun.
  - injection Hrun as <-. split; [|done]. intros _. split_and!; try done.
    intros t Ht. by inversion Ht.
  - destruct (decide (tid ∉ visited s)) as [Hnew|Hold].
    + destruct (dfs fuel g tid s) as [[r s1]|] eqn:Hcall; [|done].
      pose proof (dfs_roots_grows _ _ _ _ Hrun) as Hgrow.
      apply (dfs_sound fuel tid s r s1) in Hcall; [|done|done|set_solver].
      destruct r; simpl in Hcall.
      * destruct Hcall as [Hcyc Hne]. split; [|done].
        intros Hnil. rewrite Hnil in Hgrow.
        apply prefix_nil_inv in Hgrow. done.
      * destruct Hcall as (Hv & Htid & Hs & Hc & Hinv1).
        destruct (IH s1 Hrun Hinv1) as [Hok Hbad]; [set_solver|congruence|].
        split; [|done]. intros Hnil.
        destruct (Hok Hnil) as (? & ? & ? & Hall). split_and!; [done|done|set_solver|].
        intros t [->|Ht]%elem_of_cons; [set_solver|by apply Hall].
    + destruct (IH s Hrun Hinv Hst Hcs) as [Hok Hbad]. split; [|done].
      intros Hnil. destruct (Hok Hnil) as (? & ? & ? & Hall).
      split_and!; [done..|].
      intros t [->|Ht]%elem_of_cons; [|by apply Hall].
      apply dec_stable in Hold. set_solver.
Qed.

(** With every key among the roots, the report is empty exactly when the
    dict has no cycle. *)
Lemma dfs_roots_empty_iff fuel s' :
  dict_wf g →
  dfs_roots fuel g (keys g) dfs_init = Some s' →
  cycles s' = [] ↔ ¬ cyclic g.
Proof.
  intros Hwf Hrun.
  destruct (dfs_roots_sound _ _ _ _ Hrun dfs_inv_init) as [Hok Hbad];
    [done..|].
  split.
  - intros Hnil [x Hx]. destruct (Hok Hnil) as (Hinv & Hst & _ & Hall).
    apply (inv_acyclic _ _ Hinv x); [|done].
    split; [|set_solver]. apply Hall, Hwf, elem_of_dom.
    assert (∃ d, edge g x d) as [d Hd] by (inversion Hx; eauto).
    unfold edge, dict_get in Hd. destruct (table g !! x); [done|].
    by inversion Hd.
  - intros Hac. destruct (cycles s') as [|c cs] eqn:Hcs; [done|].
    destruct Hac. by apply Hbad.
Qed.

Lemma edge_dict_nodes x d : edge g x d → x ∈ dict_nodes g ∧ d ∈ dict_nodes g.
Proof.
  unfold edge, dict_get, dict_nodes. intros Hd.
  destruct (table g !! x) as [ds|] eqn:Hx; [|by inversion Hd]. simpl in Hd.
  split; apply elem_of_union; [left; by apply elem_of_dom|right].
  apply elem_of_union_list. exists (list_to_set ds). split; [|set_solver].
  apply list_elem_of_fmap. exists (x, ds). split; [done|].
  by apply elem_of_map_to_list.
Qed.

Lemma dfs_loop_total n rec node deps s :
  rec_total g n rec →
  (∀ d, d ∈ deps → d ∈ dict_nodes g) →
  (size (dict_nodes g ∖ visited s) ≤ n)%nat →
  ∃ r s', dfs_loop rec node deps s = Some (r, s') ∧ visited s ⊆ visited s'.
Proof.
  intros Hrec. revert s. induction deps as [|dep rest IH]; intros s Hdeps Hsz.
  - by eexists _, _.
  - simpl. assert (Hrest : ∀ d, d ∈ rest → d ∈ dict_nodes g).
    { intros d Hd. apply Hdeps. by right. }
    destruct (decide (dep ∉ visited s)) as [Hnew|Hold].
    + destruct (Hrec dep s) as (r & s1 & -> & Hv & _); [|done..|].
      { apply Hdeps. by left. }
      destruct r; [by eexists _, _|].
      destruct (IH s1 Hrest) as (r & s2 & -> & Hv2).
      * etrans; [|exact Hsz]. apply subseteq_size. set_solver.
      * eexists _, _. split; [done|set_solver].
    + case_decide; [by eexists _, _|]. by apply IH.
Qed.

Lemma dfs_total fuel : rec_total g fuel (dfs fuel g).
Proof.
  induction fuel as [|fuel IH]; intros node s Hnode Hnew Hsz.
  - assert (Hne : size (dict_nodes g ∖ visited s) ≠ 0%nat); [|lia].
    apply size_non_empty_iff. set_solver.
  - simpl.
    destruct (dfs_loop_total fuel (dfs fuel g) node (dict_get g node)
                (dfs_enter node s) IH) as (r & s' & Hrun & Hv).
    + intros d Hd. by eapply edge_dict_nodes.
    + simpl.
      assert (size (dict_nodes g ∖ ({[node]} ∪ visited s))
              < size (dict_nodes g ∖ visited s))%nat; [|lia].
      apply subset_size. set_solver.
    + exists r, s'. simpl in Hv. split; [done|]. set_solver.
Qed.

Lemma dfs_roots_total fuel tids s :
  dict_wf g →
  (size (dict_nodes g) ≤ fuel)%nat →
  (∀ t, t ∈ tids → t ∈ keys g) →
  ∃ s', dfs_roots fuel g tids s = Some s'.
Proof.
  intros Hwf Hfuel. revert s.
  induction tids as [|tid rest IH]; intros s Hkeys; [by eexists|].
  simpl. assert (Hrest : ∀ t, t ∈ rest → t ∈ keys g).
  { intros t Ht. apply Hkeys. by right. }
  case_decide; [|by apply IH].
  destruct (dfs_total fuel tid s) as (r & s1 & -> & _); [|done| |by apply IH].
  - apply elem_of_union. left. apply Hwf, Hkeys. by left.
  - etrans; [|exact Hfuel]. apply subseteq_size. set_solver.
Qed.

(** A call that returns with some fuel returns the same with more. *)
Lemma dfs_loop_fuel_mono rec1 rec2 node deps s res :
  (∀ n s res, rec1 n s = Some res → rec2 n s = Some res) →
  dfs_loop rec1 node deps s = Some res →
  dfs_loop rec2 node deps s = Some res.
Proof.
  intros Hrec. revert s. induction deps as [|dep rest IH]; intros s Hrun;
    [done|].
  simpl in *. repeat case_decide; [|done|by apply IH].
  destruct (rec1 dep s) as [[[] s1]|] eqn:Hcall; [| |done];
    rewrite (Hrec _ _ _ Hcall); [done|by apply IH].
Qed.

Lemma dfs_fuel_mono fuel fuel' node s res :
  (fuel ≤ fuel')%nat →
  dfs fuel g node s = Some res → dfs fuel' g node s = Some res.
Proof.
  revert fuel' node s res.
  induction fuel as [|fuel IH]; intros fuel' node s res Hle Hrun; [done|].
  destruct fuel' as [|fuel']; [lia|]. simpl in *.
  eapply dfs_loop_fuel_mono; [|done].
  intros n s0 res0. apply IH. lia.
Qed.

Lemma dfs_roots_fuel_mono fuel fuel' tids s s' :
  (fuel ≤ fuel')%nat →
  dfs_roots fuel g tids s = Some s' → dfs_roots fuel' g tids s = Some s'.
Proof.
  intros Hle. revert s. induction tids as [|tid rest IH]; intros s Hrun;
    [done|].
  simpl in *. case_decide; [|by apply IH].
  destruct (dfs fuel g tid s) as [[r s1]|] eqn:Hcall; [|done].
  rewrite (dfs_fuel_mono _ _ _ _ _ Hle Hcall). by apply IH.
Qed.

End dfs_correct.

(** ** The dict of [detect_cycles] and the dependency relation *)

Lemma deps_dict_snoc ts t :
  deps_dict (ts ++ [t]) = dict_set (i_id t) (dependencies t) (deps_dict ts).
Proof. unfold deps_dict. by rewrite foldl_app. Qed.

Lemma deps_dict_wf ts : dict_wf (deps_dict ts).
Proof.
  induction ts as [|t ts IH] using rev_ind; intros k.
  - simpl. rewrite dom_empty. set_solver.
  - rewrite deps_dict_snoc. simpl. rewrite dom_insert.
    case_decide as Hk; [|rewrite elem_of_app]; rewrite (IH k); set_solver.
Qed.

Lemma dict_get_snoc ts t x :
  dict_get (deps_dict (ts ++ [t])) x =
  if decide (x = i_id t) then dependencies t else dict_get (deps_dict ts) x.
Proof.
  rewrite deps_dict_snoc. unfold dict_get. simpl.
  case_decide as Hx; [subst; by rewrite lookup_insert_eq|].
  by rewrite lookup_insert_ne.
Qed.

(** With pairwise distinct ids, the edges of the dict are the dependency
    relation of the task sequence. *)
Lemma edge_depends_on ts x d :
  NoDup (i_id <$> ts) → edge (deps_dict ts) x d ↔ depends_on ts x d.
Proof.
  unfold edge, depends_on.
  induction ts as [|t ts IH] using rev_ind; intros Hnd.
  - unfold dict_get. simpl. rewrite lookup_empty. simpl. split.
    + by intros ?%elem_of_nil.
    + by intros (t & ?%elem_of_nil & _).
  - rewrite fmap_app in Hnd. apply NoDup_app in Hnd as (Hnd & Hfresh & _).
    rewrite dict_get_snoc. case_decide as Hx.
    + subst x. split.
      * intros Hd. exists t. split; [|done]. apply elem_of_app. right. by left.
      * intros (u & [Hu|Hu]%elem_of_app & Hid & Hd).
        -- destruct (Hfresh (i_id u)); [by apply list_elem_of_fmap_2|].
           rewrite Hid. by left.
        -- apply list_elem_of_singleton in Hu. by subst.
    + rewrite (IH Hnd). split.
      * intros (u & Hu & Hid & Hd). exists u. split; [|done].
        apply elem_of_app. by left.
      * intros (u & [Hu|Hu]%elem_of_app & Hid & Hd); [by exists u|].
        apply list_elem_of_singleton in Hu. by subst.
Qed.

Lemma cyclic_depends_on ts :
  NoDup (i_id <$> ts) → ¬ cyclic (deps_dict ts) ↔ acyclic ts.
Proof.
  intros Hnd. unfold cyclic, acyclic. split.
  - intros Hno x Hx. apply Hno. exists x.
    eapply (tc_congruence (λ y, y)); [|done].
    intros y z. by apply edge_depends_on.
  - intros Hno [x Hx]. apply (Hno x).
    eapply (tc_congruence (λ y, y)); [|done].
    intros y z. by apply edge_depends_on.
Qed.

(** [detect_cycles] returns, with any fuel from [dfs_depth] on, and its report
    is empty exactly when the dict has no cycle. *)
Lemma detect_cycles_dict proj :
  ∃ cs, detect_cycles proj = Some cs
        ∧ (cs = [] ↔ ¬ cyclic (deps_dict (tasks proj)))
        ∧ ∀ fuel, (dfs_depth proj ≤ fuel)%nat →
                  detect_cycles_fuel fuel proj = Some cs.
Proof.
  unfold detect_cycles, detect_cycles_fuel, dfs_depth.
  set (g := deps_dict (tasks proj)).
  pose proof (deps_dict_wf (tasks proj)) as Hwf. fold g in Hwf.
  destruct (dfs_roots_total g (size (dict_nodes g)) (keys g) dfs_init)
    as [s' Hrun]; [done..|].
  exists (cycles s'). rewrite Hrun. split_and!; [done| |].
  - by eapply dfs_roots_empty_iff.
  - intros fuel Hle. by rewrite (dfs_roots_fuel_mono g _ _ _ _ _ Hle Hrun).
Qed.

(** ** [compute_ready_tasks] *)

Lemma elem_of_done_ids ts d :
  d ∈ done_ids ts ↔ Exists (λ u, i_id u = d ∧ i_status u = done) ts.
Proof.
  unfold done_ids. rewrite elem_of_list_to_set, list_elem_of_fmap, Exists_exists.
  split.
  - intros (u & -> & [Hu Hin]%list_elem_of_filter). by exists u.
  - intros (u & Hin & <- & Hu). exists u. split; [done|].
    by apply list_elem_of_filter.
Qed.

Lemma ready_loop_filter all ts :
  ready_loop (done_ids all) ts = filter (is_ready all) ts.
Proof.
  induction ts as [|t ts IH]; [done|].
  simpl. rewrite filter_cons, IH.
  destruct (decide (i_status t ≠ pending)) as [Hst|Hst].
  { rewrite decide_False; [done|]. by intros [? _]. }
  apply dec_stable in Hst.
  destruct (forallb _ _) eqn:Hall.
  - rewrite decide_True; [done|]. split; [done|].
    apply Forall_forall. intros d Hd. apply elem_of_done_ids.
    rewrite forallb_forall in Hall. apply list_elem_of_In, Hall in Hd.
    by apply bool_decide_eq_true in Hd.
  - rewrite decide_False; [done|]. intros [_ Hdeps].
    assert (forallb (λ d, bool_decide (d ∈ done_ids all)) (dependencies t)
            = true); [|congruence].
    apply forallb_forall. intros d Hd%list_elem_of_In.
    apply bool_decide_eq_true, elem_of_done_ids.
    by eapply Forall_forall in Hdeps.
Qed.

Lemma compute_ready_tasks_filter proj :
  compute_ready_tasks proj = filter (is_ready (tasks proj)) (tasks proj).
Proof. apply ready_loop_filter. Qed.

Lemma is_ready_spec ts t :
  is_ready ts t ↔
  i_status t = pending
  ∧ ∀ d, d ∈ dependencies t → ∃ u, u ∈ ts ∧ i_id u = d ∧ i_status u = done.
Proof.
  unfold is_ready. rewrite Forall_forall. setoid_rewrite Exists_exists.
  done.
Qed.

(** C1. [compute_ready_tasks] returns, in the order of the project, exactly
    the tasks whose status is pending and whose every dependency id is the id
    of a task whose status is done; a task that depends on an id no task
    carries is never returned. *)
Theorem compute_ready_tasks_exact proj :
  compute_ready_tasks proj = filter (is_ready (tasks proj)) (tasks proj)
  ∧ (∀ t, t ∈ compute_ready_tasks proj ↔
          t ∈ tasks proj ∧ i_status t = pending
          ∧ ∀ d, d ∈ dependencies t →
                 ∃ u, u ∈ tasks proj ∧ i_id u = d ∧ i_status u = done)
  ∧ (∀ t d, d ∈ dependencies t → d ∉ task_ids proj →
            t ∉ compute_ready_tasks proj).
Proof.
  pose proof (compute_ready_tasks_filter proj) as Heq.
  split_and!; [done| |].
  - intros t. rewrite Heq, list_elem_of_filter, is_ready_spec. tauto.
  - intros t d Hd Hmissing. rewrite Heq, list_elem_of_filter, is_ready_spec.
    intros [[_ Hdeps] _]. destruct (Hdeps d Hd) as (u & Hu & <- & _).
    apply Hmissing. by apply list_elem_of_fmap_2.
Qed.

(** ** [detect_cycles] *)

Lemma detect_cycles_acyclic proj :
  NoDup (task_ids proj) →
  ∃ cs, detect_cycles proj = Some cs ∧ (cs = [] ↔ acyclic (tasks proj)).
Proof.
  intros Hnd. destruct (detect_cycles_dict proj) as (cs & Hrun & Hiff & _).
  exists cs. split; [done|]. by rewrite Hiff, cyclic_depends_on.
Qed.





(** ** [cmd_add] *)

Lemma task_ids_snoc proj t :
  task_ids (set_tasks (tasks proj ++ [t]) proj) = task_ids proj ++ [i_id t].
Proof. unfold task_ids. simpl. by rewrite fmap_app. Qed.

Lemma cmd_add_returns project task_id agent desc deps dir :
  exit (cmd_add project task_id agent desc deps dir) ≠ Some RecursionError.
Proof.
  unfold cmd_add. destruct (load_project project dir) as [proj|]; [|done].
  case_decide; [done|].
  destruct (detect_cycles_dict
              (set_tasks (tasks proj ++ [make_task task_id agent desc deps])
                         proj)) as (cs & -> & _).
  by destruct cs.
Qed.






(** ** The ids of a project under the commands *)

Lemma find_item_Some {D} target (items : list (Item D)) i x :
  find_item target items = Some (i, x) →
  items !! i = Some x ∧ i_id x = target
  ∧ ∀ j y, items !! j = Some y → (j < i)%nat → i_id y ≠ target.
Proof. unfold find_item. by intros ?%list_find_Some. Qed.

Lemma find_item_None {D} target (items : list (Item D)) :
  find_item target items = None ↔ target ∉ i_id <$> items.
Proof.
  unfold find_item. rewrite list_find_None, Forall_forall. split.
  - intros Hno (x & -> & Hx)%list_elem_of_fmap. by apply (Hno x).
  - intros Hno x Hx <-. apply Hno. by apply list_elem_of_fmap_2.
Qed.

Lemma ids_insert {D} (items : list (Item D)) i x x' :
  items !! i = Some x → i_id x' = i_id x →
  i_id <$> <[i := x']> items = i_id <$> items.
Proof.
  intros Hi Hid. rewrite list_fmap_insert, Hid.
  apply list_insert_id. by rewrite list_lookup_fmap, Hi.
Qed.

Lemma apply_status_id {D} now st (x : Item D) :
  i_id (apply_status now st x) = i_id x.
Proof. by destruct st. Qed.

Lemma record_item_id {D} now text (x : Item D) :
  i_id (record_item now text x) = i_id x.
Proof. unfold record_item. by case_decide. Qed.

Lemma record_result_ids {D} now target text (items items' : list (Item D)) :
  record_result now target text items = Some items' →
  i_id <$> items' = i_id <$> items.
Proof.
  unfold record_result. destruct (find_item target items) as [[i x]|] eqn:Hf;
    [|done].
  intros [= <-]. apply find_item_Some in Hf as (Hi & _).
  eapply ids_insert; [done|apply record_item_id].
Qed.

Lemma ids_distinct_save dir nm p :
  ids_distinct dir → NoDup (task_ids p) → ids_distinct (save_project nm p dir).
Proof.
  intros Hdir Hp nm' p'. unfold save_project.
  destruct (decide (nm = nm')) as [->|Hne].
  - rewrite lookup_insert_eq. by intros [= <-].
  - rewrite lookup_insert_ne by done. apply Hdir.
Qed.

(** C9, as amended. A command keeps the task ids of every project pairwise
    distinct provided that, when it is an add, the id it adds is not yet an
    id of the project; [cmd_add] itself does not look for the id. *)
Theorem run_keeps_ids_distinct now c dir :
  ids_distinct dir → adds_fresh_id c dir →
  ids_distinct (disk (run now c dir)).
Proof.
  intros Hdir Hfresh.
  assert (Hsame : ∀ nm p p' out,
            dir !! nm = Some p → task_ids p' = task_ids p →
            ids_distinct (disk (commit dir nm p' out))).
  { intros nm p p' out Hp Hids. apply ids_distinct_save; [done|].
    rewrite Hids. by eapply Hdir. }
  destruct c as [project a|project task_id agent desc deps|project did ag per
                |project|project target st|project target text|project act
                |project]; simpl.
  - unfold cmd_init. case_decide; [done|].
    destruct (init_mode a); [destruct (init_pipeline a)|..]; try done;
      apply ids_distinct_save; try done; apply NoDup_nil_2.
  - unfold cmd_add, load_project.
    destruct (dir !! project) as [p|] eqn:Hp; [|done].
    case_decide; [done|].
    destruct (detect_cycles _) as [[|c cs]|]; [|done..].
    apply ids_distinct_save; [done|]. rewrite task_ids_snoc.
    apply NoDup_app. split_and!; [by eapply Hdir| |apply NoDup_singleton].
    intros x Hx ->%list_elem_of_singleton. by apply (Hfresh p).
  - unfold cmd_add_debater, load_project.
    destruct (dir !! project) as [p|] eqn:Hp; [|done].
    case_decide; [done|]. by eapply Hsame.
  - unfold cmd_ready, load_project.
    destruct (dir !! project) as [p|] eqn:Hp; [|done].
    case_decide; [done|]. by destruct (compute_ready_tasks p).
  - unfold cmd_update, load_project.
    destruct (dir !! project) as [p|] eqn:Hp; [|done].
    destruct (parse_status st) as [s|]; [|done].
    destruct (mode p); [| |done].
    + destruct (find_item target (stages p)) as [[i x]|]; [|done].
      case_bool_decide; by eapply Hsame.
    + destruct (find_item target (tasks p)) as [[i x]|] eqn:Hf; [|done].
      eapply Hsame; [done|]. apply find_item_Some in Hf as (Hi & _).
      unfold task_ids. simpl. eapply ids_insert; [done|apply apply_status_id].
  - unfold cmd_result, load_project.
    destruct (dir !! project) as [p|] eqn:Hp; [|done].
    case_decide.
    + destruct (record_result _ _ _ (stages p)); [|done]. by eapply Hsame.
    + destruct (record_result _ _ _ (tasks p)) as [ts|] eqn:Hr; [|done].
      eapply Hsame; [done|]. by eapply record_result_ids.
  - unfold cmd_round, load_project.
    destruct (dir !! project) as [p|] eqn:Hp; [|done].
    case_decide; [done|].
    destruct act; [|destruct (last (rounds p))..]; try done; by eapply Hsame.
  - unfold cmd_reset, load_project.
    destruct (dir !! project) as [p|] eqn:Hp; [|done].
    eapply Hsame; [done|]. destruct (mode p); try done.
    unfold task_ids. simpl. rewrite <-list_fmap_compose. done.
Qed.

Lemma open_dir_eq : run_all open_script ∅ = {["p" := open_project]}.
Proof. by vm_compute. Qed.

Lemma open_dir_distinct : ids_distinct (run_all open_script ∅).
Proof.
  rewrite open_dir_eq. intros nm p [<- <-]%lookup_singleton_Some.
  apply (bool_decide_unpack _). vm_compute. exact I.
Qed.

Lemma run_keeps_ids_distinct_witness :
  ids_distinct (run_all open_script ∅)
  ∧ adds_fresh_id (Add "p" "b" "" "" []) (run_all open_script ∅)
  ∧ ids_distinct (disk (run "t2" (Add "p" "b" "" "" []) (run_all open_script ∅))).
Proof.
  pose proof open_dir_distinct as Hdir.
  assert (Hfresh : adds_fresh_id (Add "p" "b" "" "" []) (run_all open_script ∅)).
  { intros p Hp. vm_compute in Hp. injection Hp as <-.
    apply (bool_decide_unpack _). vm_compute. exact I. }
  split_and!; [exact Hdir|exact Hfresh|].
  exact (run_keeps_ids_distinct "t2" (Add "p" "b" "" "" [])
           (run_all open_script ∅) Hdir Hfresh).
Defined.

(** C9, the claim as stated fails: adding the id [a] a second time is
    accepted, and the saved project has two tasks with that id. *)
Lemma cmd_add_repeats_id :
  ids_distinct (run_all open_script ∅)
  ∧ task_ids <$> run_all open_script ∅ !! "p" = Some ["a"]
  ∧ exit (cmd_add "p" "a" "" "" [] (run_all open_script ∅)) = None
  ∧ task_ids <$> disk (cmd_add "p" "a" "" "" [] (run_all open_script ∅)) !! "p"
    = Some ["a"; "a"]
  ∧ ¬ ids_distinct (disk (cmd_add "p" "a" "" "" [] (run_all open_script ∅))).
Proof.
  split_and!; try (by vm_compute).
  - exact open_dir_distinct.
  - intros Hd.
    assert (Hp : disk (cmd_add "p" "a" "" "" [] (run_all open_script ∅)) !! "p"
                 = Some twice_project) by (by vm_compute).
    apply Hd in Hp. vm_compute in Hp. apply NoDup_cons in Hp as [Hin _].
    apply Hin. by left.
Qed.

(** ** [cmd_update] on a linear project *)

(** C4, as amended. Marking done the stage found at index [i] of a linear
    project: when [i] is the cursor, the cursor becomes [i + 1] and the id of
    the stage at [i + 1], when there is one, is announced; when [i] is not the
    cursor, the cursor stays and nothing is announced; and when [i] is the
    cursor and the last index, the cursor ends equal to the number of stages,
    with nothing announced. *)
Theorem cmd_update_done_cursor now dir project proj target i s :
  load_project project dir = Some proj →
  mode proj = linear →
  find_item target (stages proj) = Some (i, s) →
  ∃ proj',
    disk (cmd_update now project target "done" dir)
      = save_project project proj' dir
    ∧ exit (cmd_update now project target "done" dir) = None
    ∧ stages proj' = <[i := apply_status now done s]> (stages proj)
    ∧ (Z.of_nat i = current_stage proj →
         current_stage proj' = current_stage proj + 1
         ∧ advanced (output (cmd_update now project target "done" dir))
           = from_option (λ nxt, [i_id nxt]) [] (stages proj !! S i))
    ∧ (Z.of_nat i ≠ current_stage proj →
         current_stage proj' = current_stage proj
         ∧ advanced (output (cmd_update now project target "done" dir)) = [])
    ∧ (Z.of_nat i = current_stage proj → S i = length (stages proj) →
         current_stage proj' = Z.of_nat (length (stages proj))
         ∧ advanced (output (cmd_update now project target "done" dir)) = []).
Proof.
  intros Hload Hmode Hfind. unfold cmd_update. rewrite Hload. simpl.
  rewrite Hmode, Hfind. apply find_item_Some in Hfind as (Hi & _).
  assert (Hnext : ∀ s', <[i := s']> (stages proj) !! (i + 1)%nat
                        = stages proj !! S i).
  { intros s'. rewrite list_lookup_insert_ne by lia. f_equal. lia. }
  case_bool_decide as Hcur.
  - destruct Hcur as [_ Hcur]. eexists. split_and!; try done.
    + intros _. simpl. split; [lia|]. rewrite Hnext.
      by destruct (stages proj !! S i).
    + intros _ Hlast. simpl. split; [lia|]. rewrite Hnext.
      by rewrite lookup_ge_None_2 by lia.
  - eexists. split_and!; try done.
    + intros Hcur'. destruct Hcur. by split.
    + intros Hcur'. destruct Hcur. by split.
Qed.

Lemma pipeline_dir_eq : run_all pipeline_script ∅ = {["p" := pipeline_project]}.
Proof. by vm_compute. Qed.

Lemma cmd_update_done_cursor_witness :
  load_project "p" (run_all pipeline_script ∅) = Some pipeline_project
  ∧ ∃ proj',
      disk (cmd_update "t2" "p" "y" "done" (run_all pipeline_script ∅))
        = save_project "p" proj' (run_all pipeline_script ∅)
      ∧ exit (cmd_update "t2" "p" "y" "done" (run_all pipeline_script ∅)) = None
      ∧ stages proj'
        = <[1%nat := apply_status "t2" done (make_stage "y" "" "")]>
            (stages pipeline_project)
      ∧ (Z.of_nat 1 = current_stage pipeline_project →
           current_stage proj' = current_stage pipeline_project + 1
           ∧ advanced (output (cmd_update "t2" "p" "y" "done"
                                 (run_all pipeline_script ∅)))
             = from_option (λ nxt, [i_id nxt]) []
                 (stages pipeline_project !! 2%nat))
      ∧ (Z.of_nat 1 ≠ current_stage pipeline_project →
           current_stage proj' = current_stage pipeline_project
           ∧ advanced (output (cmd_update "t2" "p" "y" "done"
                                 (run_all pipeline_script ∅))) = [])
      ∧ (Z.of_nat 1 = current_stage pipeline_project →
         2%nat = length (stages pipeline_project) →
           current_stage proj' = Z.of_nat (length (stages pipeline_project))
           ∧ advanced (output (cmd_update "t2" "p" "y" "done"
                                 (run_all pipeline_script ∅))) = []).
Proof.
  assert (Hload : load_project "p" (run_all pipeline_script ∅)
                  = Some pipeline_project) by (by vm_compute).
  split; [exact Hload|].
  apply (cmd_update_done_cursor "t2" (run_all pipeline_script ∅) "p"
           pipeline_project "y" 1 (make_stage "y" "" "") Hload);
    reflexivity.
Defined.

(** C4, the claim as stated fails: with the pipeline [x, y, z] and the cursor
    at 1, marking the last stage [z] done leaves the cursor at 1, not at the
    number of stages. *)
Lemma last_stage_out_of_order :
  load_project "p" (run_all pipeline_script ∅) = Some pipeline_project
  ∧ current_stage pipeline_project = 1
  ∧ length (stages pipeline_project) = 3%nat
  ∧ find_item "z" (stages pipeline_project) = Some (2%nat, make_stage "z" "" "")
  ∧ exit (cmd_update "t2" "p" "z" "done" (run_all pipeline_script ∅)) = None
  ∧ (λ p, (i_status <$> stages p, current_stage p)) <$>
      disk (cmd_update "t2" "p" "z" "done" (run_all pipeline_script ∅)) !! "p"
    = Some ([done; pending; done], 1).
Proof. split_and!; by vm_compute. Qed.

(** ** The phase of a round under the commands *)

Lemma commit_lookup dir project p0 out nm p' :
  disk (commit dir project p0 out) !! nm = Some p' →
  (nm = project ∧ p' = p0) ∨ (nm ≠ project ∧ dir !! nm = Some p').
Proof.
  simpl. unfold save_project. destruct (decide (project = nm)) as [->|Hne].
  - rewrite lookup_insert_eq. intros [= <-]. by left.
  - rewrite lookup_insert_ne by done. intros ?. right. by split.
Qed.

Lemma alter_last_lookup {A} (f : A → A) (l : list A) k x y :
  l !! k = Some x → alter_last f l !! k = Some y →
  (S k = length l ∧ y = f x) ∨ (S k ≠ length l ∧ y = x).
Proof.
  unfold alter_last. intros Hx Hy.
  pose proof (lookup_lt_Some _ _ _ Hx) as Hlt.
  destruct (decide (k = pred (length l))) as [->|Hne].
  - rewrite list_lookup_alter_eq, Hx in Hy. injection Hy as <-. left.
    split; [lia|done].
  - rewrite list_lookup_alter_ne in Hy by done. right. split; [lia|congruence].
Qed.

(** C5, as amended. A command leaves the phase of every round where it was or
    moves it forward in the order initial, cross-review, synthesis, with one
    exception: [round cross-review] sets the phase of the current round to
    cross-review whatever it was, so on a round in phase synthesis it moves
    the phase back. *)
Theorem run_round_phase now c dir nm p p' k r r' :
  dir !! nm = Some p →
  disk (run now c dir) !! nm = Some p' →
  rounds p !! k = Some r →
  rounds p' !! k = Some r' →
  (phase_rank (phase r) ≤ phase_rank (phase r'))%nat
  ∨ (c = RoundCmd nm round_cross_review ∧ S k = length (rounds p)
     ∧ phase r = synthesis ∧ phase r' = cross_review).
Proof.
  intros Hp Hp' Hr Hr'.
  assert (Hkeep : dir !! nm = Some p' →
                  (phase_rank (phase r) ≤ phase_rank (phase r'))%nat).
  { intros Hp2. by simplify_eq. }
  assert (Hsame : rounds p' = rounds p →
                  (phase_rank (phase r) ≤ phase_rank (phase r'))%nat).
  { intros Hrs. rewrite Hrs in Hr'. by simplify_eq. }
  destruct c as [project a|project task_id agent desc deps|project did ag per
                |project|project target st|project target text|project act
                |project]; simpl in Hp'.
  - left. unfold cmd_init in Hp'. case_decide; [by apply Hkeep|].
    destruct (init_mode a); [destruct (init_pipeline a)|..];
      try (by apply Hkeep);
      apply commit_lookup in Hp' as [[-> ->]|[_ ?]]; try (by apply Hkeep);
      by rewrite lookup_nil in Hr'.
  - left. unfold cmd_add, load_project in Hp'.
    destruct (dir !! project) as [p0|] eqn:Hp0; [|by apply Hkeep].
    case_decide; [by apply Hkeep|].
    destruct (detect_cycles _) as [[|c cs]|]; try (by apply Hkeep).
    apply commit_lookup in Hp' as [[-> ->]|[_ ?]]; [|by apply Hkeep].
    apply Hsame. simpl. congruence.
  - left. unfold cmd_add_debater, load_project in Hp'.
    destruct (dir !! project) as [p0|] eqn:Hp0; [|by apply Hkeep].
    case_decide; [by apply Hkeep|].
    apply commit_lookup in Hp' as [[-> ->]|[_ ?]]; [|by apply Hkeep].
    apply Hsame. simpl. congruence.
  - left. unfold cmd_ready, load_project in Hp'.
    destruct (dir !! project) as [p0|] eqn:Hp0; [|by apply Hkeep].
    case_decide; [by apply Hkeep|].
    destruct (compute_ready_tasks p0); by apply Hkeep.
  - left. unfold cmd_update, load_project in Hp'.
    destruct (dir !! project) as [p0|] eqn:Hp0; [|by apply Hkeep].
    destruct (parse_status st) as [s|]; [|by apply Hkeep].
    destruct (mode p0); [| |by apply Hkeep].
    + destruct (find_item target (stages p0)) as [[i x]|]; [|by apply Hkeep].
      case_bool_decide;
        (apply commit_lookup in Hp' as [[-> ->]|[_ ?]]; [|by apply Hkeep]);
        apply Hsame; simpl; congruence.
    + destruct (find_item target (tasks p0)) as [[i x]|]; [|by apply Hkeep].
      apply commit_lookup in Hp' as [[-> ->]|[_ ?]]; [|by apply Hkeep].
      apply Hsame. simpl. congruence.
  - left. unfold cmd_result, load_project in Hp'.
    destruct (dir !! project) as [p0|] eqn:Hp0; [|by apply Hkeep].
    case_decide.
    + destruct (record_result _ _ _ (stages p0)); [|by apply Hkeep].
      apply commit_lookup in Hp' as [[-> ->]|[_ ?]]; [|by apply Hkeep].
      apply Hsame. simpl. congruence.
    + destruct (record_result _ _ _ (tasks p0)); [|by apply Hkeep].
      apply commit_lookup in Hp' as [[-> ->]|[_ ?]]; [|by apply Hkeep].
      apply Hsame. simpl. congruence.
  - unfold cmd_round, load_project in Hp'.
    destruct (dir !! project) as [p0|] eqn:Hp0; [|by left; apply Hkeep].
    case_decide; [by left; apply Hkeep|].
    destruct act as [|did text| | |].
    + left. apply commit_lookup in Hp' as [[-> ->]|[_ ?]]; [|by apply Hkeep].
      simplify_eq. simpl in Hr'. rewrite lookup_app_l in Hr'
        by (by eapply lookup_lt_Some). by simplify_eq.
    + left. destruct (last (rounds p0)); [|by apply Hkeep].
      apply commit_lookup in Hp' as [[-> ->]|[_ ?]]; [|by apply Hkeep].
      simplify_eq. simpl in Hr'.
      by destruct (alter_last_lookup _ _ _ _ _ Hr Hr') as [[_ ->]|[_ ->]].
    + destruct (last (rounds p0)); [|by left; apply Hkeep].
      apply commit_lookup in Hp' as [[-> ->]|[_ ?]]; [|by left; apply Hkeep].
      simplify_eq. simpl in Hr'.
      destruct (alter_last_lookup _ _ _ _ _ Hr Hr') as [[Hk ->]|[_ ->]];
        [|by left].
      destruct (phase r) eqn:Hph; simpl; [left; lia..|by right].
    + left. destruct (last (rounds p0)); [|by apply Hkeep].
      apply commit_lookup in Hp' as [[-> ->]|[_ ?]]; [|by apply Hkeep].
      simplify_eq. simpl in Hr'.
      destruct (alter_last_lookup _ _ _ _ _ Hr Hr') as [[_ ->]|[_ ->]];
        [|done].
      destruct (phase r); simpl; lia.
    + left. destruct (last (rounds p0)); by apply Hkeep.
  - left. unfold cmd_reset, load_project in Hp'.
    destruct (dir !! project) as [p0|] eqn:Hp0; [|by apply Hkeep].
    apply commit_lookup in Hp' as [[-> ->]|[_ ?]]; [|by apply Hkeep].
    simplify_eq. destruct (mode p); simpl in Hr'; by simplify_eq.
Qed.

Lemma debate_dir_eq : run_all debate_script ∅ = {["p" := debate_project]}.
Proof. by vm_compute. Qed.

Lemma run_round_phase_witness :
  run_all debate_script ∅ !! "p" = Some debate_project
  ∧ ((phase_rank synthesis ≤ phase_rank synthesis)%nat
     ∨ (RoundCmd "p" round_synthesize = RoundCmd "p" round_cross_review
        ∧ 1%nat = length (rounds debate_project)
        ∧ synthesis = synthesis ∧ synthesis = cross_review)).
Proof.
  assert (Hp : run_all debate_script ∅ !! "p" = Some debate_project)
    by (by vm_compute).
  split; [exact Hp|].
  apply (run_round_phase "t3" (RoundCmd "p" round_synthesize)
           (run_all debate_script ∅) "p" debate_project debate_project 0
           (mkRound 1 synthesis "t1" []) (mkRound 1 synthesis "t1" []) Hp).
  - by vm_compute.
  - reflexivity.
  - reflexivity.
Defined.

(** C5, the claim as stated fails: after [round start] and [round synthesize]
    the round is in phase synthesis, and [round cross-review] then succeeds
    and puts it back in phase cross-review. *)
Lemma cross_review_after_synthesis :
  run_all debate_script ∅ !! "p" = Some debate_project
  ∧ phase <$> rounds debate_project = [synthesis]
  ∧ exit (cmd_round "t3" "p" round_cross_review (run_all debate_script ∅))
    = None
  ∧ (λ p, phase <$> rounds p) <$>
      disk (cmd_round "t3" "p" round_cross_review (run_all debate_script ∅))
        !! "p"
    = Some [cross_review]
  ∧ (phase_rank cross_review < phase_rank synthesis)%nat.
Proof. split_and!; by vm_compute. Qed.

(** ** [cmd_update] on a dag project *)

Lemma parse_status_text st : parse_status (status_text st) = Some st.
Proof. by destruct st. Qed.

Lemma is_ready_after_done now (ts : list Task) i x t :
  ts !! i = Some x →
  is_ready ts t → is_ready (<[i := apply_status now done x]> ts) t.
Proof.
  intros Hi. rewrite !is_ready_spec. intros [Hst Hdeps]. split; [done|].
  intros d Hd. destruct (Hdeps d Hd) as (u & Hu & Hid & Hdone).
  apply list_elem_of_lookup in Hu as [j Hj].
  destruct (decide (j = i)) as [->|Hne].
  - exists (apply_status now done x). split_and!.
    + apply list_elem_of_lookup. exists i.
      apply list_lookup_insert_eq. by eapply lookup_lt_Some.
    + rewrite apply_status_id.
      assert (Some x = Some u) as [= ->]; [|done]. rewrite <-Hi. exact Hj.
    + done.
  - exists u. split_and!; [|done..]. apply list_elem_of_lookup. exists j.
    by rewrite list_lookup_insert_ne.
Qed.

(** C6. After [update ... done] on a task of a dag project, the ids of the
    unlock notification are those of [compute_ready_tasks] on the project as
    it is saved, all of them: a task that was ready before the update, the
    target apart, is in the notification too. *)
Theorem cmd_update_done_unlocks now dir project proj target :
  load_project project dir = Some proj →
  mode proj = dag →
  target ∈ task_ids proj →
  ∃ i t proj',
    find_item target (tasks proj) = Some (i, t)
    ∧ proj' = set_tasks (<[i := apply_status now done t]> (tasks proj)) proj
    ∧ disk (cmd_update now project target "done" dir)
      = save_project project proj' dir
    ∧ exit (cmd_update now project target "done" dir) = None
    ∧ unlocked (output (cmd_update now project target "done" dir))
      = i_id <$> compute_ready_tasks proj'
    ∧ (∀ u, u ∈ compute_ready_tasks proj → i_id u ≠ target →
            u ∈ compute_ready_tasks proj'
            ∧ i_id u ∈ unlocked (output (cmd_update now project target "done"
                                            dir))).
Proof.
  intros Hload Hmode Htarget.
  destruct (find_item target (tasks proj)) as [[i t]|] eqn:Hfind;
    [|by apply find_item_None in Hfind].
  exists i, t, (set_tasks (<[i := apply_status now done t]> (tasks proj)) proj).
  set (proj' := set_tasks _ proj).
  assert (Hout : unlocked (output (cmd_update now project target "done" dir))
                 = i_id <$> compute_ready_tasks proj').
  { unfold cmd_update. rewrite Hload. change (parse_status "done") with (Some done).
    cbv iota beta. rewrite Hmode, Hfind. cbv iota beta zeta.
    rewrite decide_True by done. fold proj'.
    destruct (compute_ready_tasks proj') as [|u us]; [done|].
    unfold unlocked. simpl. by rewrite app_nil_r. }
  split_and!; try done.
  - unfold cmd_update. rewrite Hload. change (parse_status "done") with (Some done).
    cbv iota beta. by rewrite Hmode, Hfind.
  - unfold cmd_update. rewrite Hload. change (parse_status "done") with (Some done).
    cbv iota beta. by rewrite Hmode, Hfind.
  - intros u Hu Hne. apply find_item_Some in Hfind as (Hi & Hid & _).
    assert (Hu' : u ∈ compute_ready_tasks proj').
    { rewrite compute_ready_tasks_filter in Hu.
      rewrite compute_ready_tasks_filter.
      apply list_elem_of_filter in Hu as [Hready Hin].
      apply list_elem_of_filter. split.
      - by apply is_ready_after_done.
      - simpl. apply list_elem_of_lookup in Hin as [j Hj].
        apply list_elem_of_lookup. exists j.
        rewrite list_lookup_insert_ne; [done|]. intros <-.
        assert (Some t = Some u) as [= ->]; [|done]. rewrite <-Hi. exact Hj. }
    split; [done|]. rewrite Hout. by apply list_elem_of_fmap_2.
Qed.

Lemma cmd_update_done_unlocks_witness :
  load_project "p" {["p" := fork_project]} = Some fork_project
  ∧ ∃ i t proj',
      find_item "a" (tasks fork_project) = Some (i, t)
      ∧ proj' = set_tasks (<[i := apply_status "t1" done t]>
                             (tasks fork_project)) fork_project
      ∧ disk (cmd_update "t1" "p" "a" "done" {["p" := fork_project]})
        = save_project "p" proj' {["p" := fork_project]}
      ∧ exit (cmd_update "t1" "p" "a" "done" {["p" := fork_project]}) = None
      ∧ unlocked (output (cmd_update "t1" "p" "a" "done"
                            {["p" := fork_project]}))
        = i_id <$> compute_ready_tasks proj'
      ∧ (∀ u, u ∈ compute_ready_tasks fork_project → i_id u ≠ "a" →
              u ∈ compute_ready_tasks proj'
              ∧ i_id u ∈ unlocked (output (cmd_update "t1" "p" "a" "done"
                                              {["p" := fork_project]}))).
Proof.
  assert (Hload : load_project "p" {["p" := fork_project]} = Some fork_project)
    by (by vm_compute).
  split; [exact Hload|].
  apply (cmd_update_done_unlocks "t1" {["p" := fork_project]} "p" fork_project
           "a" Hload).
  - reflexivity.
  - apply (bool_decide_unpack _). vm_compute. exact I.
Defined.

(** The notification of the example: [b] was ready before [a] was done, and
    is announced with [c], which the update unlocked. *)
Example unlock_includes_ready_before :
  i_id <$> compute_ready_tasks fork_project = ["a"; "b"]
  ∧ output (cmd_update "t1" "p" "a" "done" {["p" := fork_project]})
    = [Unlocked ["b"; "c"]; StatusSet "a" done].
Proof. split; by vm_compute. Qed.

(** ** [cmd_result] *)

Lemma record_item_recorded {D} now text (x : Item D) :
  recorded now text x (record_item now text x).
Proof.
  unfold recorded, record_item. simpl.
  destruct (decide (i_status x = pending)) as [Hst|Hst]; simpl; naive_solver.
Qed.

Lemma record_item_not_pending {D} now text (x : Item D) :
  i_status x ≠ pending → record_item now text x = set_i_result text x.
Proof. intros Hst. unfold record_item. simpl. by rewrite decide_False. Qed.

Lemma record_result_None {D} now target text (items : list (Item D)) :
  target ∉ i_id <$> items → record_result now target text items = None.
Proof.
  intros Hno. unfold record_result.
  by rewrite (proj2 (find_item_None target items) Hno).
Qed.

(** C7. [cmd_result] on the first item with the id (a stage of a linear
    project, a task otherwise) sets its result to the text whatever its
    status; exactly when the status is pending it also makes the status
    in-progress and stamps [assigned_at] with the clock reading, and otherwise
    leaves both; the project is saved. With no item of that id the command
    exits with the not-found error and saves nothing. *)
Theorem cmd_result_records now dir project proj target text :
  load_project project dir = Some proj →
  (mode proj = linear →
     (∀ i x, find_item target (stages proj) = Some (i, x) →
        ∃ x', recorded now text x x'
          ∧ cmd_result now project target text dir
            = commit dir project
                (set_stages (<[i := x']> (stages proj)) proj)
                [ResultRecorded target])
     ∧ (target ∉ i_id <$> stages proj →
        cmd_result now project target text dir
        = halt dir (Some proj) (ItemNotFound target)))
  ∧ (mode proj ≠ linear →
     (∀ i x, find_item target (tasks proj) = Some (i, x) →
        ∃ x', recorded now text x x'
          ∧ cmd_result now project target text dir
            = commit dir project
                (set_tasks (<[i := x']> (tasks proj)) proj)
                [ResultRecorded target])
     ∧ (target ∉ i_id <$> tasks proj →
        cmd_result now project target text dir
        = halt dir (Some proj) (ItemNotFound target))).
Proof.
  intros Hload. unfold cmd_result. rewrite Hload.
  split; intros Hmode; [rewrite decide_True by done|rewrite decide_False by done];
    (split; [intros i x Hfind|intros Hno]).
  - exists (record_item now text x). split; [apply record_item_recorded|].
    unfold record_result. by rewrite Hfind.
  - by rewrite record_result_None.
  - exists (record_item now text x). split; [apply record_item_recorded|].
    unfold record_result. by rewrite Hfind.
  - by rewrite record_result_None.
Qed.

Lemma cmd_result_records_witness :
  load_project "p" {["p" := fork_project]} = Some fork_project
  ∧ ∃ x', recorded "t1" "ok" (make_task "b" "" "" []) x'
      ∧ cmd_result "t1" "p" "b" "ok" {["p" := fork_project]}
        = commit {["p" := fork_project]} "p"
            (set_tasks (<[1%nat := x']> (tasks fork_project)) fork_project)
            [ResultRecorded "b"].
Proof.
  assert (Hload : load_project "p" {["p" := fork_project]} = Some fork_project)
    by (by vm_compute).
  split; [exact Hload|].
  apply (proj2 (cmd_result_records "t1" {["p" := fork_project]} "p"
                  fork_project "b" "ok" Hload)).
  - discriminate.
  - reflexivity.
Defined.

(** C10. When the item [cmd_result] finds is not pending, the command
    replaces it by the same item with the new result and changes nothing
    else: the status and the two timestamps of the item, the other items, the
    other fields of the project and the other projects are as before. *)
Theorem cmd_result_frame now dir project proj target text :
  load_project project dir = Some proj →
  (mode proj = linear →
   ∀ i x, find_item target (stages proj) = Some (i, x) →
          i_status x ≠ pending →
     cmd_result now project target text dir
     = commit dir project
         (set_stages (<[i := set_i_result text x]> (stages proj)) proj)
         [ResultRecorded target]
     ∧ i_status (set_i_result text x) = i_status x
     ∧ i_assigned_at (set_i_result text x) = i_assigned_at x
     ∧ i_completed_at (set_i_result text x) = i_completed_at x
     ∧ (∀ j, j ≠ i →
          <[i := set_i_result text x]> (stages proj) !! j = stages proj !! j)
     ∧ (∀ nm, nm ≠ project →
          disk (cmd_result now project target text dir) !! nm = dir !! nm))
  ∧ (mode proj ≠ linear →
     ∀ i x, find_item target (tasks proj) = Some (i, x) →
            i_status x ≠ pending →
     cmd_result now project target text dir
     = commit dir project
         (set_tasks (<[i := set_i_result text x]> (tasks proj)) proj)
         [ResultRecorded target]
     ∧ i_status (set_i_result text x) = i_status x
     ∧ i_assigned_at (set_i_result text x) = i_assigned_at x
     ∧ i_completed_at (set_i_result text x) = i_completed_at x
     ∧ (∀ j, j ≠ i →
          <[i := set_i_result text x]> (tasks proj) !! j = tasks proj !! j)
     ∧ (∀ nm, nm ≠ project →
          disk (cmd_result now project target text dir) !! nm = dir !! nm)).
Proof.
  intros Hload. unfold cmd_result. rewrite Hload.
  split; intros Hmode i x Hfind Hst;
    [rewrite decide_True by done|rewrite decide_False by done];
    unfold record_result; rewrite Hfind, record_item_not_pending by done;
    (split_and!; [done..| |]).
  - intros j Hj. by rewrite list_lookup_insert_ne.
  - intros nm Hnm. simpl. unfold save_project. by rewrite lookup_insert_ne.
  - intros j Hj. by rewrite list_lookup_insert_ne.
  - intros nm Hnm. simpl. unfold save_project. by rewrite lookup_insert_ne.
Qed.

Lemma cmd_result_frame_witness :
  load_project "p" {["p" := pipeline_project]} = Some pipeline_project
  ∧ cmd_result "t2" "p" "x" "ok" {["p" := pipeline_project]}
    = commit {["p" := pipeline_project]} "p"
        (set_stages
           (<[0%nat := set_i_result "ok" (mkItem "x" "x" "" tt done "" "" "t1")]>
              (stages pipeline_project)) pipeline_project)
        [ResultRecorded "x"].
Proof.
  assert (Hload : load_project "p" {["p" := pipeline_project]}
                  = Some pipeline_project) by (by vm_compute).
  split; [exact Hload|].
  apply (proj1 (cmd_result_frame "t2" {["p" := pipeline_project]} "p"
                  pipeline_project "x" "ok" Hload)).
  - reflexivity.
  - reflexivity.
  - discriminate.
Defined.

(** ** [round start] *)

(** C8. On a debate project [round start] succeeds and appends a round whose
    number is the number of rounds so far plus one, in phase initial and
    without responses; the number is 1 when there was no round and 2 when
    there was one, whatever the phase of that one. *)
Theorem cmd_round_start now dir project proj :
  load_project project dir = Some proj →
  mode proj = debate →
  cmd_round now project round_start dir
  = commit dir project
      (set_rounds
         (rounds proj
          ++ [mkRound (Z.of_nat (length (rounds proj)) + 1) initial now []])
         proj)
      [RoundStarted (Z.of_nat (length (rounds proj)) + 1)
         (default (goal proj) (question proj)) (length (debaters proj))]
  ∧ (rounds proj = [] → Z.of_nat (length (rounds proj)) + 1 = 1)
  ∧ (∀ r, rounds proj = [r] → Z.of_nat (length (rounds proj)) + 1 = 2).
Proof.
  intros Hload Hmode. unfold cmd_round. rewrite Hload.
  rewrite decide_False by (by rewrite Hmode; intros []).
  split_and!; [done|by intros ->|by intros r ->].
Qed.

Lemma cmd_round_start_witness :
  load_project "p" {["p" := debate_project]} = Some debate_project
  ∧ cmd_round "t3" "p" round_start {["p" := debate_project]}
    = commit {["p" := debate_project]} "p"
        (set_rounds
           (rounds debate_project ++ [mkRound 2 initial "t3" []])
           debate_project)
        [RoundStarted 2 "q" 0].
Proof.
  assert (Hload : load_project "p" {["p" := debate_project]}
                  = Some debate_project) by (by vm_compute).
  split; [exact Hload|].
  exact (proj1 (cmd_round_start "t3" {["p" := debate_project]} "p"
                  debate_project Hload eq_refl)).
Defined.

(** ** The scenarios of the specification *)

(** [init p --mode dag], [add a], [add b --deps a]: [a] is ready; once [a] is
    done, [b] is ready and announced; once [b] is done, nothing is. *)
Example dag_scenario :
  let d0 := run_all [("t0", Init "p" dag_args); ("t1", Add "p" "a" "" "" []);
                     ("t2", Add "p" "b" "" "" ["a"])] ∅ in
  let r1 := cmd_update "t3" "p" "a" "done" d0 in
  let r2 := cmd_update "t4" "p" "b" "done" (disk r1) in
  (λ p, i_id <$> compute_ready_tasks p) <$> d0 !! "p" = Some ["a"]
  ∧ (λ p, i_id <$> compute_ready_tasks p) <$> disk r1 !! "p" = Some ["b"]
  ∧ output r1 = [Unlocked ["b"]; StatusSet "a" done]
  ∧ (λ p, i_id <$> compute_ready_tasks p) <$> disk r2 !! "p" = Some []
  ∧ output r2 = [StatusSet "b" done].
Proof. split_and!; by vm_compute. Qed.

(** [init p --mode linear --pipeline x,y,z]: [x] done moves the cursor to 1
    and announces [y]; [z] done, out of order, leaves the cursor at 1. *)
Example linear_scenario :
  let d0 := run_all [("t0", Init "p" (mkInitArgs linear "" ["x"; "y"; "z"] ""
                                        false))] ∅ in
  let r1 := cmd_update "t1" "p" "x" "done" d0 in
  let r2 := cmd_update "t2" "p" "z" "done" (disk r1) in
  current_stage <$> disk r1 !! "p" = Some 1
  ∧ output r1 = [AutoAdvance "y"; StatusSet "x" done]
  ∧ current_stage <$> disk r2 !! "p" = Some 1
  ∧ output r2 = [StatusSet "z" done].
Proof. split_and!; by vm_compute. Qed.

(** * Further properties *)

(** ** What a command saves *)

(** A command leaves the directory as it was, or returns normally after
    saving, under the name it was given, a new project ([init]) or an edit of
    the project it loaded. *)
Lemma run_view now c dir :
  disk (run now c dir) = dir
  ∨ ∃ p' out,
      run now c dir = commit dir (command_project c) p' out
      ∧ ((∃ a, c = Init (command_project c) a
               ∧ p' = init_project now (command_project c) a)
         ∨ ∃ p, dir !! command_project c = Some p ∧ edit now c p p').
Proof.
  destruct c as [project a|project task_id agent desc deps|project did ag per
                |project|project target st|project target text|project act
                |project]; simpl.
  - unfold cmd_init. case_decide; [by left|].
    destruct (init_mode a) eqn:Hm; [destruct (init_pipeline a) eqn:Hp|..];
      [by left|right..]; eexists _, _; (split; [done|]); left; exists a;
      (split; [done|]); unfold init_project; by rewrite Hm, ?Hp.
  - unfold cmd_add, load_project.
    destruct (dir !! project) as [p|] eqn:Hp; [|by left].
    destruct (decide (mode p ≠ dag)) as [|Hm%dec_stable]; [by left|].
    destruct (detect_cycles _) as [[|c cs]|] eqn:Hdc; [|by left..].
    right. eexists _, _. split; [done|]. right. exists p. split; [done|].
    by constructor.
  - unfold cmd_add_debater, load_project.
    destruct (dir !! project) as [p|] eqn:Hp; [|by left].
    destruct (decide (mode p ≠ debate)) as [|Hm%dec_stable]; [by left|].
    right. eexists _, _. split; [done|]. right. exists p. split; [done|].
    by constructor.
  - left. unfold cmd_ready, load_project.
    destruct (dir !! project) as [p|]; [|done].
    case_decide; [done|]. by destruct (compute_ready_tasks p).
  - unfold cmd_update, load_project.
    destruct (dir !! project) as [p|] eqn:Hp; [|by left].
    destruct (parse_status st) as [s|] eqn:Hst; [|by left].
    destruct (mode p) eqn:Hm; [| |by left].
    + destruct (find_item target (stages p)) as [[i x]|] eqn:Hf; [|by left].
      right. pose proof (edit_update_stage now project target st s i x p
                           Hm Hst Hf) as He.
      case_bool_decide; eexists _, _; (split; [done|]); right; exists p;
        by split.
    + destruct (find_item target (tasks p)) as [[i x]|] eqn:Hf; [|by left].
      right. eexists _, _. split; [done|]. right. exists p. split; [done|].
      by econstructor.
  - unfold cmd_result, load_project.
    destruct (dir !! project) as [p|] eqn:Hp; [|by left].
    unfold record_result. case_decide as Hm.
    + destruct (find_item target (stages p)) as [[i x]|] eqn:Hf; [|by left].
      right. eexists _, _. split; [done|]. right. exists p. split; [done|].
      by constructor.
    + destruct (find_item target (tasks p)) as [[i x]|] eqn:Hf; [|by left].
      right. eexists _, _. split; [done|]. right. exists p. split; [done|].
      by constructor.
  - unfold cmd_round, load_project.
    destruct (dir !! project) as [p|] eqn:Hp; [|by left].
    destruct (decide (mode p ≠ debate)) as [|Hm%dec_stable]; [by left|].
    destruct act as [|did text| | |].
    + right. eexists _, _. split; [done|]. right. exists p. split; [done|].
      by constructor.
    + destruct (last (rounds p)) as [cur|] eqn:Hl; [|by left].
      right. eexists _, _. split; [done|]. right. exists p. split; [done|].
      by constructor.
    + destruct (last (rounds p)) as [cur|] eqn:Hl; [|by left].
      right. eexists _, _. split; [done|]. right. exists p. split; [done|].
      by econstructor.
    + destruct (last (rounds p)) as [cur|] eqn:Hl; [|by left].
      right. eexists _, _. split; [done|]. right. exists p. split; [done|].
      by econstructor.
    + left. by destruct (last (rounds p)).
  - unfold cmd_reset, load_project.
    destruct (dir !! project) as [p|] eqn:Hp; [|by left].
    right. eexists _, _. split; [done|]. right. exists p. split; [done|].
    constructor.
Qed.

(** The project found under a name after a command is the one that was
    there, or what the command saved under the name it was given. *)
Lemma run_saved now c dir nm p' :
  disk (run now c dir) !! nm = Some p' →
  dir !! nm = Some p'
  ∨ (nm = command_project c
     ∧ ((∃ a, c = Init nm a ∧ p' = init_project now nm a)
        ∨ ∃ p, dir !! nm = Some p ∧ edit now c p p')).
Proof.
  destruct (run_view now c dir) as [->|(p0 & out & -> & Hp0)]; [by left|].
  intros [[-> ->]|[_ ?]]%commit_lookup; [|by left]. right. by split.
Qed.

(** ** Failure, frame and identity *)

(** X1. A command that exits with an error has saved nothing: the directory
    is as it was. *)
Theorem run_exit_saves_nothing now c dir :
  is_Some (exit (run now c dir)) → disk (run now c dir) = dir.
Proof.
  intros [e He]. destruct (run_view now c dir) as [|(p' & out & Hrun & _)];
    [done|].
  by rewrite Hrun in He.
Qed.

Lemma run_exit_saves_nothing_witness :
  is_Some (exit (run "t2" (Add "p" "b" "" "" ["a"]) (run_all open_script ∅)))
  ∧ disk (run "t2" (Add "p" "b" "" "" ["a"]) (run_all open_script ∅))
    = run_all open_script ∅.
Proof.
  assert (He : is_Some (exit (run "t2" (Add "p" "b" "" "" ["a"])
                                  (run_all open_script ∅)))).
  { exists (CycleDetected ["b -> a"]). by vm_compute. }
  split; [exact He|].
  exact (run_exit_saves_nothing "t2" (Add "p" "b" "" "" ["a"])
           (run_all open_script ∅) He).
Defined.



(** X3. No command but [init] deletes a project or changes its name, mode,
    goal, creation time, workspace or question, and debaters are only ever
    added at the end. *)
Theorem run_keeps_identity now c dir nm p :
  ¬ is_init c →
  dir !! nm = Some p →
  ∃ p', disk (run now c dir) !! nm = Some p'
        ∧ name p' = name p ∧ mode p' = mode p ∧ goal p' = goal p
        ∧ created_at p' = created_at p ∧ workspace p' = workspace p
        ∧ question p' = question p
        ∧ debaters p `prefix_of` debaters p'.
Proof.
  intros Hinit Hp.
  destruct (run_view now c dir) as [->|(p' & out & -> & Hp')];
    [by exists p|].
  destruct (decide (nm = command_project c)) as [->|Hne].
  - exists p'. simpl. unfold save_project. rewrite lookup_insert_eq.
    split; [done|].
    destruct Hp' as [(a & Hc & _)|(p0 & Hp0 & He)];
      [destruct Hinit; by rewrite Hc|].
    assert (p0 = p) as -> by congruence.
    inversion He; subst; clear He; simpl; try done;
      try (case_bool_decide; by simpl);
      try (destruct (mode p) eqn:Hm; simpl; by rewrite ?Hm).
    split_and!; try done. by apply prefix_app_r.
  - exists p. simpl. unfold save_project. by rewrite lookup_insert_ne.
Qed.

Lemma run_keeps_identity_witness :
  ({["p" := debate_project]} : Store) !! "p" = Some debate_project
  ∧ ∃ p', disk (run "t9" (AddDebater "p" "ann" "" "")
                  {["p" := debate_project]}) !! "p" = Some p'
          ∧ name p' = name debate_project ∧ mode p' = mode debate_project
          ∧ goal p' = goal debate_project
          ∧ created_at p' = created_at debate_project
          ∧ workspace p' = workspace debate_project
          ∧ question p' = question debate_project
          ∧ debaters debate_project `prefix_of` debaters p'.
Proof.
  assert (Hp : ({["p" := debate_project]} : Store) !! "p" = Some debate_project)
    by (by vm_compute).
  split; [exact Hp|].
  exact (run_keeps_identity "t9" (AddDebater "p" "ann" "" "")
           {["p" := debate_project]} "p" debate_project (λ H, H) Hp).
Defined.

(** ** The cursor of a linear project *)

Lemma find_item_lt {D} target (items : list (Item D)) i x :
  find_item target items = Some (i, x) → (i < length items)%nat.
Proof. intros (Hi & _)%find_item_Some. by eapply lookup_lt_Some. Qed.

(** X4. The commands keep the cursor of every project in range: it points at
    a stage or just past the last one. *)
Theorem run_keeps_cursor_in_range now c dir :
  (∀ nm p, dir !! nm = Some p → cursor_ok p) →
  ∀ nm p', disk (run now c dir) !! nm = Some p' → cursor_ok p'.
Proof.
  intros Hdir nm p' Hp'.
  apply run_saved in Hp' as [Hp'|(-> & [(a & -> & ->)|(p & Hp & He)])];
    [by eapply Hdir| |].
  - unfold init_project, cursor_ok. destruct (init_mode a); simpl; lia.
  - pose proof (Hdir _ _ Hp) as Hok. unfold cursor_ok in *.
    inversion He; subst; clear He; simpl; rewrite ?length_insert; try done.
    + assert (Hlt : (i < length (stages p))%nat) by (by eapply find_item_lt).
      case_bool_decide; simpl; rewrite length_insert; lia.
    + destruct (mode p); simpl; [rewrite length_fmap; lia|done..].
Qed.

Lemma run_keeps_cursor_in_range_witness :
  (∀ nm p, ({["p" := pipeline_project]} : Store) !! nm = Some p → cursor_ok p)
  ∧ ∀ nm p', disk (run "t2" (Update "p" "y" "done")
                     {["p" := pipeline_project]}) !! nm = Some p' →
             cursor_ok p'.
Proof.
  assert (Hdir : ∀ nm p, ({["p" := pipeline_project]} : Store) !! nm = Some p →
                         cursor_ok p).
  { intros nm p [_ <-]%lookup_singleton_Some. unfold cursor_ok. simpl. lia. }
  split; [exact Hdir|].
  exact (run_keeps_cursor_in_range "t2" (Update "p" "y" "done")
           {["p" := pipeline_project]} Hdir).
Defined.

(** X5. A command other than [init] and [reset] never moves the cursor back
    and moves it forward by at most one, and it keeps the stage ids, in their
    order. *)
Theorem run_cursor_moves_forward now c dir nm p p' :
  ¬ is_init c → ¬ is_reset c →
  dir !! nm = Some p →
  disk (run now c dir) !! nm = Some p' →
  (current_stage p ≤ current_stage p' ≤ current_stage p + 1)%Z
  ∧ i_id <$> stages p' = i_id <$> stages p.
Proof.
  intros Hinit Hreset Hp Hp'.
  apply run_saved in Hp' as [Hp'|(-> & [(a & Hc & ->)|(p0 & Hp0 & He)])].
  - assert (p' = p) as -> by congruence. split; [lia|done].
  - destruct Hinit. by rewrite Hc.
  - assert (p0 = p) as -> by congruence.
    inversion He; subst; clear He; simpl; try (split; [lia|done]).
    + match goal with H : find_item _ _ = _ |- _ =>
        apply find_item_Some in H as (Hi & _) end.
      case_bool_decide as Hcur; simpl;
        (split; [lia|eapply ids_insert; [done|apply apply_status_id]]).
    + match goal with H : find_item _ _ = _ |- _ =>
        apply find_item_Some in H as (Hi & _) end.
      split; [lia|]. eapply ids_insert; [done|apply record_item_id].
    + by destruct Hreset.
Qed.

Lemma run_cursor_moves_forward_witness :
  ({["p" := pipeline_project]} : Store) !! "p" = Some pipeline_project
  ∧ ∃ p', disk (run "t2" (Update "p" "y" "done")
                  {["p" := pipeline_project]}) !! "p" = Some p'
          ∧ (current_stage pipeline_project ≤ current_stage p'
             ≤ current_stage pipeline_project + 1)%Z
          ∧ i_id <$> stages p' = i_id <$> stages pipeline_project.
Proof.
  assert (Hp : ({["p" := pipeline_project]} : Store) !! "p"
               = Some pipeline_project) by (by vm_compute).
  split; [exact Hp|].
  eexists. split; [by vm_compute|].
  apply (run_cursor_moves_forward "t2" (Update "p" "y" "done")
           {["p" := pipeline_project]} "p" pipeline_project _
           (λ H, H) (λ H, H) Hp).
  by vm_compute.
Defined.

(** ** [cmd_next] *)

(** X6. On a linear project whose cursor is in range, [cmd_next] shows the
    stage at the cursor, and says that all stages are done exactly when the
    cursor is past the last stage; it does not end in an [IndexError]. *)
Theorem cmd_next_in_range project dir p :
  load_project project dir = Some p →
  mode p = linear →
  cursor_ok p →
  cmd_next project dir
  = match stages p !! Z.to_nat (current_stage p) with
    | Some s => NextStage s
    | None => AllStagesDone
    end
  ∧ (cmd_next project dir = AllStagesDone
     ↔ current_stage p = Z.of_nat (length (stages p))).
Proof.
  intros Hload Hmode [Hlo Hhi]. unfold cmd_next. rewrite Hload.
  rewrite decide_False by (by rewrite Hmode; intros []).
  unfold py_index. rewrite (decide_True (P := (0 ≤ _)%Z)) by done.
  destruct (decide (Z.of_nat (length (stages p)) ≤ current_stage p)%Z)
    as [Hge|Hlt].
  - rewrite lookup_ge_None_2 by lia. split; [done|]. split; [lia|done].
  - destruct (lookup_lt_is_Some_2 (stages p) (Z.to_nat (current_stage p)))
      as [s Hs]; [lia|].
    rewrite Hs. split; [done|]. split; [done|lia].
Qed.

Lemma cmd_next_in_range_witness :
  load_project "p" {["p" := pipeline_project]} = Some pipeline_project
  ∧ cmd_next "p" {["p" := pipeline_project]}
    = match stages pipeline_project
            !! Z.to_nat (current_stage pipeline_project) with
      | Some s => NextStage s
      | None => AllStagesDone
      end
  ∧ (cmd_next "p" {["p" := pipeline_project]} = AllStagesDone
     ↔ current_stage pipeline_project
       = Z.of_nat (length (stages pipeline_project))).
Proof.
  assert (Hload : load_project "p" {["p" := pipeline_project]}
                  = Some pipeline_project) by (by vm_compute).
  split; [exact Hload|].
  apply (cmd_next_in_range "p" {["p" := pipeline_project]} pipeline_project
           Hload eq_refl).
  unfold cursor_ok. simpl. lia.
Defined.

(** ** What [detect_cycles] reads, and what it reports *)

Lemma deps_dict_task_graph ts ts' :
  task_graph ts = task_graph ts' → deps_dict ts = deps_dict ts'.
Proof.
  intros Hg.
  assert (Hfold : ∀ l, deps_dict l
                       = foldl (λ d kv, dict_set kv.1 kv.2 d) dict_empty
                               (task_graph l)).
  { intros l. unfold deps_dict, task_graph. by rewrite foldl_fmap. }
  by rewrite !Hfold, Hg.
Qed.

Lemma detect_cycles_task_graph p p' :
  task_graph (tasks p) = task_graph (tasks p') →
  detect_cycles p = detect_cycles p'.
Proof.
  intros Hg%deps_dict_task_graph.
  unfold detect_cycles, detect_cycles_fuel, dfs_depth. by rewrite Hg.
Qed.

Lemma task_graph_insert (ts : list Task) i x x' :
  ts !! i = Some x → i_id x' = i_id x → dependencies x' = dependencies x →
  task_graph (<[i := x']> ts) = task_graph ts.
Proof.
  intros Hi Hid Hdeps. unfold task_graph. rewrite list_fmap_insert, Hid, Hdeps.
  apply list_insert_id. rewrite list_lookup_fmap.
  transitivity ((λ t : Task, (i_id t, dependencies t)) <$> Some x); [|done].
  f_equal. exact Hi.
Qed.

Lemma apply_status_more {D} now st (x : Item D) :
  i_more (apply_status now st x) = i_more x.
Proof. by destruct st. Qed.

Lemma record_item_more {D} now text (x : Item D) :
  i_more (record_item now text x) = i_more x.
Proof. unfold record_item. by case_decide. Qed.


(** X7. Every project the commands save passes the cycle check: when
    [detect_cycles] reports nothing on the projects of the directory, it
    reports nothing on them after any command. *)
Theorem run_keeps_cycle_free now c dir :
  (∀ nm p, dir !! nm = Some p → detect_cycles p = Some []) →
  ∀ nm p', disk (run now c dir) !! nm = Some p' → detect_cycles p' = Some [].
Proof.
  intros Hdir nm p' Hp'.
  apply run_saved in Hp' as [Hp'|(-> & [(a & _ & ->)|(p & Hp & He)])];
    [by eapply Hdir| |].
  - unfold init_project. by destruct (init_mode a).
  - pose proof (Hdir _ _ Hp) as Hok.
    inversion He; subst; clear He; try done;
      try (by rewrite <-Hok; apply detect_cycles_task_graph).
    + rewrite <-Hok. apply detect_cycles_task_graph. by case_bool_decide.
    + rewrite <-Hok. apply detect_cycles_task_graph. simpl.
      match goal with H : find_item _ _ = _ |- _ =>
        apply find_item_Some in H as (Hi & _) end.
      eapply task_graph_insert;
        [done|apply apply_status_id|apply apply_status_more].
    + rewrite <-Hok. apply detect_cycles_task_graph. simpl.
      match goal with H : find_item _ _ = _ |- _ =>
        apply find_item_Some in H as (Hi & _) end.
      eapply task_graph_insert;
        [done|apply record_item_id|apply record_item_more].
    + rewrite <-Hok. apply detect_cycles_task_graph.
      destruct (mode p); simpl; try done.
      unfold task_graph. by rewrite <-list_fmap_compose.
Qed.

Lemma run_keeps_cycle_free_witness :
  (∀ nm p, run_all open_script ∅ !! nm = Some p → detect_cycles p = Some [])
  ∧ ∀ nm p', disk (run "t2" (Add "p" "c" "" "" ["a"])
                     (run_all open_script ∅)) !! nm = Some p' →
             detect_cycles p' = Some [].
Proof.
  assert (Hdir : ∀ nm p, run_all open_script ∅ !! nm = Some p →
                         detect_cycles p = Some []).
  { rewrite open_dir_eq. intros nm p [_ <-]%lookup_singleton_Some.
    by vm_compute. }
  split; [exact Hdir|].
  exact (run_keeps_cycle_free "t2" (Add "p" "c" "" "" ["a"])
           (run_all open_script ∅) Hdir).
Defined.

Section dfs_report.
Variable g : pydict.

Lemma dfs_loop_reports rec node deps s s' :
  rec_sound g rec → rec_reports g rec →
  dfs_loop rec node deps s = Some (true, s') →
  node ∈ stack s → dfs_inv g s →
  (∀ x, x ∈ stack s → rtc (edge g) x node) →
  (∀ d, d ∈ deps → edge g node d) →
  (∀ d, edge g node d → d ∈ deps ∨ finished s d) →
  ∃ n d, cycles s' = cycles s ++ [n +:+ " -> " +:+ d]
         ∧ edge g n d ∧ rtc (edge g) d n.
Proof.
  intros Hsound Hrep. revert s.
  induction deps as [|dep rest IH]; intros s Hrun Hnode Hinv Hpath Hdeps Hsucc;
    [done|].
  simpl in Hrun. assert (Hnd : edge g node dep) by (apply Hdeps; left).
  assert (Hpath' : ∀ x, x ∈ stack s → rtc (edge g) x dep).
  { intros x Hx. eapply rtc_r; eauto. }
  destruct (decide (dep ∉ visited s)) as [Hnew|Hold].
  - destruct (rec dep s) as [[[] s1]|] eqn:Hcall; [| |done].
    + injection Hrun as <-. by eapply Hrep.
    + apply (Hsound dep s false s1) in Hcall as (Hv & Hdv & Hs & Hc & Hinv1);
        [|done..].
      rewrite <-Hc. apply IH; [done|set_solver|done| | |].
      * intros x Hx. apply Hpath. set_solver.
      * intros d Hd. apply Hdeps. by right.
      * intros d Hd. destruct (Hsucc d Hd) as [Hin|[Hfv Hfs]].
        -- apply elem_of_cons in Hin as [->|Hin]; [|by left].
           right. split; [done|]. pose proof (inv_stack _ _ Hinv). set_solver.
        -- right. split; set_solver.
  - destruct (decide (dep ∈ stack s)) as [Hon|Hoff].
    + injection Hrun as <-. exists node, dep. split_and!; [done..|].
      by apply Hpath.
    + apply IH; [done..| |].
      * intros d Hd. apply Hdeps. by right.
      * intros d Hd. destruct (Hsucc d Hd) as [Hin|?]; [|by right].
        apply elem_of_cons in Hin as [->|Hin]; [|by left].
        right. split; [|done]. by apply dec_stable.
Qed.

Lemma dfs_reports fuel : rec_reports g (dfs fuel g).
Proof.
  induction fuel as [|fuel IH]; intros node s s' Hrun Hnode Hinv Hpath;
    [done|].
  simpl in Hrun. pose proof (inv_stack _ _ Hinv) as Hst.
  apply (dfs_loop_reports _ _ _ _ _ (dfs_sound g fuel) IH) in Hrun; [done|..].
  - simpl. set_solver.
  - by apply dfs_inv_enter.
  - simpl. intros x [->%elem_of_singleton|Hx]%elem_of_union; [done|].
    by apply Hpath.
  - done.
  - intros d Hd. by left.
Qed.

Lemma dfs_roots_first fuel tids s s' c cs :
  dfs_roots fuel g tids s = Some s' →
  dfs_inv g s → stack s ≡ ∅ → cycles s = [] →
  cycles s' = c :: cs →
  ∃ n d, c = n +:+ " -> " +:+ d ∧ edge g n d ∧ rtc (edge g) d n.
Proof.
  revert s. induction tids as [|tid rest IH]; intros s Hrun Hinv Hst Hcs Hc;
    simpl in Hrun.
  - injection Hrun as <-. congruence.
  - destruct (decide (tid ∉ visited s)) as [Hnew|Hold]; [|by eapply IH].
    destruct (dfs fuel g tid s) as [[r s1]|] eqn:Hcall; [|done].
    pose proof (dfs_roots_grows _ _ _ _ _ Hrun) as Hgrow.
    destruct r.
    + apply (dfs_reports fuel tid s s1) in Hcall
        as (n & d & Hrep & Hnd & Hdn); [|done|done|set_solver].
      exists n, d. split; [|done].
      rewrite Hcs in Hrep. simpl in Hrep. rewrite Hrep, Hc in Hgrow.
      by apply prefix_cons_inv_1 in Hgrow.
    + apply (dfs_sound g fuel tid s false s1) in Hcall
        as (Hv & Htid & Hs & Hcyc & Hinv1); [|done|done|set_solver].
      eapply (IH s1); [done|done|set_solver|congruence|done].
Qed.

End dfs_report.

Lemma edge_depends_on_1 ts x d :
  edge (deps_dict ts) x d → depends_on ts x d.
Proof.
  unfold edge, depends_on.
  induction ts as [|t ts IH] using rev_ind.
  - unfold dict_get. simpl. rewrite lookup_empty. by intros ?%elem_of_nil.
  - rewrite dict_get_snoc. case_decide as Hx.
    + intros Hd. exists t. split; [|done]. apply elem_of_app. right. by left.
    + intros (u & Hu & Hid & Hd)%IH. exists u. split; [|done].
      apply elem_of_app. by left.
Qed.

(** X8. The first line [detect_cycles] reports is the text ["n -> d"] of a
    real dependency [n -> d] of the project that closes a cycle: [d] leads
    back to [n] along dependencies. *)
Theorem detect_cycles_first_report proj c cs :
  detect_cycles proj = Some (c :: cs) →
  ∃ n d, c = n +:+ " -> " +:+ d
         ∧ depends_on (tasks proj) n d
         ∧ rtc (depends_on (tasks proj)) d n.
Proof.
  unfold detect_cycles, detect_cycles_fuel.
  destruct (dfs_roots _ _ _ _) as [s'|] eqn:Hrun; [|done].
  intros [= Hc].
  destruct (dfs_roots_first _ _ _ _ _ c cs Hrun (dfs_inv_init _))
    as (n & d & -> & Hnd & Hdn); [done..|].
  exists n, d. split_and!; [done|by apply edge_depends_on_1|].
  eapply (rtc_congruence (λ y, y)); [|done].
  intros y z. apply edge_depends_on_1.
Qed.

Lemma detect_cycles_first_report_witness :
  detect_cycles (set_tasks (tasks open_project ++ [back_task]) open_project)
  = Some ["b -> a"]
  ∧ ∃ n d, "b -> a" = n +:+ " -> " +:+ d
           ∧ depends_on (tasks open_project ++ [back_task]) n d
           ∧ rtc (depends_on (tasks open_project ++ [back_task])) d n.
Proof.
  assert (Hrun : detect_cycles
                   (set_tasks (tasks open_project ++ [back_task]) open_project)
                 = Some ["b -> a"]) by (by vm_compute).
  split; [exact Hrun|].
  exact (detect_cycles_first_report _ _ _ Hrun).
Defined.

(** Only the first line is sure to be an edge of a cycle: after a report the
    stack is left as it was, and a later root that reaches it is reported
    too. Here [c] depends on [a] and lies on no cycle. *)
Example detect_cycles_later_report :
  detect_cycles
    (mkProject "p" dag "" "t0" "" [] 0
       [make_task "a" "" "" ["b"]; make_task "b" "" "" ["a"];
        make_task "c" "" "" ["a"]] [] [] None)
  = Some ["b -> a"; "c -> a"].
Proof. by vm_compute. Qed.

(** ** What [cmd_add] accepts and rejects *)







Lemma tc_last_step {A} (R : relation A) x y : tc R x y → ∃ z, R z y.
Proof. induction 1; eauto. Qed.



(** ** Progress of the ready set *)

Lemma depends_on_finite ts x : pred_finite (tc (depends_on ts) x).
Proof.
  exists (mjoin (dependencies <$> ts)). intros y Hy.
  destruct (tc_last_step _ _ _ Hy) as (z & t & Ht & _ & Hd).
  apply list_elem_of_join. exists (dependencies t). split; [done|].
  by apply list_elem_of_fmap_2.
Qed.

(** X12. The ready set does not dry up while work remains: in a project
    whose dependency relation is acyclic, whose every dependency is the id of
    a task, and whose tasks are all pending or done, some task is ready as
    long as some task is pending. *)
Theorem ready_tasks_progress proj :
  acyclic (tasks proj) →
  deps_exist (tasks proj) →
  (∀ t, t ∈ tasks proj → i_status t = pending ∨ i_status t = done) →
  (∃ t, t ∈ tasks proj ∧ i_status t = pending) →
  ∃ t, t ∈ compute_ready_tasks proj.
Proof.
  intros Hac Hex Hst (t0 & Ht0 & Hp0).
  assert (Hsn : ∀ x, sn (depends_on (tasks proj)) x).
  { intros x. apply tc_finite_sn; [|apply depends_on_finite].
    intros y Hy. by apply (Hac y). }
  assert (Hall : ∀ x t, t ∈ tasks proj → i_id t = x → i_status t = pending →
                        ∃ r, r ∈ compute_ready_tasks proj);
    [|by eapply Hall].
  intros x. induction (Hsn x) as [x _ IH]. intros t Ht Hid Hpend.
  rewrite compute_ready_tasks_filter.
  destruct (decide (is_ready (tasks proj) t)) as [Hr|Hr].
  { exists t. by apply list_elem_of_filter. }
  assert (Hdep : ¬ Forall (λ d, Exists (λ u, i_id u = d ∧ i_status u = done)
                                       (tasks proj)) (dependencies t)).
  { intros Hall. apply Hr. by split. }
  apply not_Forall_Exists in Hdep; [|apply _].
  apply Exists_exists in Hdep as (d & Hd & Hnone). simpl in Hnone.
  destruct (proj1 (list_elem_of_fmap _ _ _) (Hex t d Ht Hd)) as (u & Hu & Hin).
  assert (Hup : i_status u = pending).
  { destruct (Hst u Hin) as [|Hdone]; [done|]. destruct Hnone.
    apply Exists_exists. by exists u. }
  rewrite <-compute_ready_tasks_filter.
  apply (IH d) with u; [|done..]. unfold flip. exists t. by rewrite <-Hid in *.
Qed.

Lemma ready_tasks_progress_witness :
  acyclic (tasks chain_project)
  ∧ ∃ t, t ∈ compute_ready_tasks chain_project.
Proof.
  assert (Hnd : NoDup (task_ids chain_project)).
  { apply (bool_decide_unpack _). vm_compute. exact I. }
  assert (Hac : acyclic (tasks chain_project)).
  { destruct (detect_cycles_acyclic chain_project Hnd) as (cs & Hrun & Hiff).
    apply Hiff. vm_compute in Hrun. by injection Hrun as <-. }
  split; [exact Hac|].
  apply (ready_tasks_progress chain_project Hac).
  - intros t d Ht Hd. simpl in Ht.
    repeat (apply elem_of_cons in Ht as [->|Ht]); [| |by inversion Ht];
      simpl in Hd; [by inversion Hd|].
    apply list_elem_of_singleton in Hd as ->. simpl. by left.
  - intros t Ht. simpl in Ht.
    repeat (apply elem_of_cons in Ht as [->|Ht]); [| |by inversion Ht];
      by left.
  - exists (make_task "a" "" "" []). split; [by left|done].
Defined.

(** ** [cmd_reset] *)

Lemma filter_ext_elem {A} (P Q : A → Prop) `{!∀ x, Decision (P x)}
    `{!∀ x, Decision (Q x)} (l : list A) :
  (∀ x, x ∈ l → P x ↔ Q x) → filter P l = filter Q l.
Proof.
  induction l as [|x l IH]; intros Hext; [done|].
  rewrite !filter_cons, IH by (intros y Hy; apply Hext; by right).
  destruct (decide (P x)) as [HP|HP].
  - rewrite decide_True; [done|]. apply Hext; [by left|done].
  - rewrite decide_False; [done|]. intros HQ. apply HP, Hext; [by left|done].
Qed.

(** X13. [cmd_reset] on a dag project keeps the tasks, their ids and their
    dependencies, makes every task pending with an empty result and empty
    timestamps, and leaves ready exactly the tasks without dependencies. *)
Theorem cmd_reset_dag project dir proj :
  load_project project dir = Some proj →
  mode proj = dag →
  ∃ proj',
    cmd_reset project dir = commit dir project proj' [ProjectReset project]
    ∧ task_graph (tasks proj') = task_graph (tasks proj)
    ∧ (∀ t, t ∈ tasks proj' →
            i_status t = pending ∧ i_result t = "" ∧ i_assigned_at t = ""
            ∧ i_completed_at t = "")
    ∧ compute_ready_tasks proj'
      = filter (λ t, dependencies t = []) (tasks proj').
Proof.
  intros Hload Hmode. unfold cmd_reset. rewrite Hload, Hmode.
  eexists. split; [done|]. simpl.
  assert (Hclr : ∀ t : Task, t ∈ reset_item <$> tasks proj →
                   i_status t = pending ∧ i_result t = ""
                   ∧ i_assigned_at t = "" ∧ i_completed_at t = "").
  { by intros t (u & -> & _)%list_elem_of_fmap. }
  split_and!; [|done|].
  - unfold task_graph. by rewrite <-list_fmap_compose.
  - rewrite compute_ready_tasks_filter. simpl. apply filter_ext_elem.
    intros t Ht. rewrite is_ready_spec. destruct (Hclr t Ht) as (Hst & _).
    split.
    + intros [_ Hdeps]. destruct (dependencies t) as [|d ds] eqn:Hd; [done|].
      destruct (Hdeps d) as (u & Hu & _ & Hdone); [by left|].
      destruct (Hclr u Hu) as (Hup & _). congruence.
    + intros Hd. split; [done|]. intros d Hin. rewrite Hd in Hin.
      by inversion Hin.
Qed.

Lemma cmd_reset_dag_witness :
  load_project "p" {["p" := fork_project]} = Some fork_project
  ∧ ∃ proj',
      cmd_reset "p" {["p" := fork_project]}
      = commit {["p" := fork_project]} "p" proj' [ProjectReset "p"]
      ∧ task_graph (tasks proj') = task_graph (tasks fork_project)
      ∧ (∀ t, t ∈ tasks proj' →
              i_status t = pending ∧ i_result t = "" ∧ i_assigned_at t = ""
              ∧ i_completed_at t = "")
      ∧ compute_ready_tasks proj'
        = filter (λ t, dependencies t = []) (tasks proj').
Proof.
  assert (Hload : load_project "p" {["p" := fork_project]} = Some fork_project)
    by (by vm_compute).
  split; [exact Hload|].
  exact (cmd_reset_dag "p" {["p" := fork_project]} fork_project Hload eq_refl).
Defined.

(** X14. After [cmd_reset] on a linear project with at least one stage,
    [cmd_next] shows the first stage, pending and cleared. *)
Theorem cmd_next_after_reset project dir proj s0 rest :
  load_project project dir = Some proj →
  mode proj = linear →
  stages proj = s0 :: rest →
  cmd_next project (disk (cmd_reset project dir)) = NextStage (reset_item s0).
Proof.
  intros Hload Hmode Hst. unfold cmd_reset. rewrite Hload, Hmode. simpl.
  unfold cmd_next, load_project, save_project. rewrite lookup_insert_eq.
  simpl. rewrite decide_False by (by rewrite Hmode; intros []).
  by rewrite Hst.
Qed.

Lemma cmd_next_after_reset_witness :
  load_project "p" {["p" := pipeline_project]} = Some pipeline_project
  ∧ cmd_next "p" (disk (cmd_reset "p" {["p" := pipeline_project]}))
    = NextStage (reset_item (mkItem "x" "x" "" tt done "" "" "t1")).
Proof.
  assert (Hload : load_project "p" {["p" := pipeline_project]}
                  = Some pipeline_project) by (by vm_compute).
  split; [exact Hload|].
  exact (cmd_next_after_reset "p" {["p" := pipeline_project]} pipeline_project
           _ _ Hload eq_refl eq_refl).
Defined.

Lemma reset_item_idem {D} (x : Item D) : reset_item (reset_item x) = reset_item x.
Proof. done. Qed.

(** X15. Resetting twice is resetting once. *)
Theorem cmd_reset_idempotent project dir :
  disk (cmd_reset project (disk (cmd_reset project dir)))
  = disk (cmd_reset project dir).
Proof.
  unfold cmd_reset, load_project.
  destruct (dir !! project) as [p|] eqn:Hp; simpl; [|by rewrite Hp].
  unfold save_project. rewrite lookup_insert_eq. simpl.
  unfold save_project. rewrite insert_insert_eq. f_equal.
  destruct (mode p) eqn:Hm; simpl; rewrite Hm; unfold set_current_stage,
    set_stages, set_tasks, set_rounds; simpl; f_equal;
    rewrite <-list_fmap_compose; by apply list_fmap_ext.
Qed.

(** ** The rounds of a debate *)

Lemma alter_last_lookup_Some {A} (f : A → A) (l : list A) k x :
  l !! k = Some x →
  alter_last f l !! k = Some (if decide (S k = length l) then f x else x).
Proof.
  unfold alter_last. intros Hx.
  pose proof (lookup_lt_Some _ _ _ Hx) as Hlt.
  case_decide as Hk.
  - replace (pred (length l)) with k by lia.
    by rewrite list_lookup_alter_eq, Hx.
  - rewrite list_lookup_alter_ne by lia. done.
Qed.

Lemma alter_last_lookup_inv {A} (f : A → A) (l : list A) k y :
  alter_last f l !! k = Some y →
  ∃ x, l !! k = Some x ∧ (y = x ∨ y = f x).
Proof.
  intros Hy. assert (Hlt : (k < length l)%nat).
  { apply lookup_lt_Some in Hy. unfold alter_last in Hy.
    by rewrite length_alter in Hy. }
  destruct (lookup_lt_is_Some_2 l k Hlt) as [x Hx]. exists x. split; [done|].
  rewrite (alter_last_lookup_Some f l k x Hx) in Hy.
  case_decide; simplify_eq; auto.
Qed.

(** X16. Round numbers follow the order of the rounds: when the [k]-th round
    of every project carries the number [k + 1], it does so after any
    command. *)
Theorem run_keeps_rounds_numbered now c dir :
  (∀ nm p, dir !! nm = Some p → rounds_numbered p) →
  ∀ nm p', disk (run now c dir) !! nm = Some p' → rounds_numbered p'.
Proof.
  intros Hdir nm p' Hp'.
  apply run_saved in Hp' as [Hp'|(-> & [(a & _ & ->)|(p & Hp & He)])];
    [by eapply Hdir| |].
  - unfold init_project. intros k r. by destruct (init_mode a).
  - pose proof (Hdir _ _ Hp) as Hok. unfold rounds_numbered in *.
    inversion He; subst; clear He; simpl; try done.
    + by case_bool_decide.
    + intros k r [Hr|[Hlen Hr]]%lookup_app_Some; [by apply Hok|].
      apply list_lookup_singleton_Some in Hr as [Hk <-]. simpl. lia.
    + intros k r (x & Hx & [->| ->])%alter_last_lookup_inv; simpl;
        by apply Hok.
    + intros k r (x & Hx & [->| ->])%alter_last_lookup_inv; simpl;
        by apply Hok.
    + intros k r (x & Hx & [->| ->])%alter_last_lookup_inv; simpl;
        by apply Hok.
    + destruct (mode p); by simpl.
Qed.

Lemma run_keeps_rounds_numbered_witness :
  (∀ nm p, ({["p" := debate_project]} : Store) !! nm = Some p →
           rounds_numbered p)
  ∧ ∀ nm p', disk (run "t3" (RoundCmd "p" round_start)
                     {["p" := debate_project]}) !! nm = Some p' →
             rounds_numbered p'.
Proof.
  assert (Hdir : ∀ nm p, ({["p" := debate_project]} : Store) !! nm = Some p →
                         rounds_numbered p).
  { intros nm p [_ <-]%lookup_singleton_Some [|k] r Hr; simpl in Hr;
      by simplify_eq. }
  split; [exact Hdir|].
  exact (run_keeps_rounds_numbered "t3" (RoundCmd "p" round_start)
           {["p" := debate_project]} Hdir).
Defined.

(** X17. The rounds are a history: a command other than [init] and [reset]
    removes no round, keeps the number and the start time of every round, and
    only ever adds responses at the end of a round; a round that is not the
    last one is left exactly as it was. *)
Theorem run_keeps_round_history now c dir nm p p' k r :
  ¬ is_init c → ¬ is_reset c →
  dir !! nm = Some p →
  disk (run now c dir) !! nm = Some p' →
  rounds p !! k = Some r →
  ∃ r', rounds p' !! k = Some r'
        ∧ round_number r' = round_number r
        ∧ started_at r' = started_at r
        ∧ responses r `prefix_of` responses r'
        ∧ (S k ≠ length (rounds p) → r' = r).
Proof.
  intros Hinit Hreset Hp Hp' Hr.
  assert (Hsame : rounds p' = rounds p →
            ∃ r', rounds p' !! k = Some r'
                  ∧ round_number r' = round_number r
                  ∧ started_at r' = started_at r
                  ∧ responses r `prefix_of` responses r'
                  ∧ (S k ≠ length (rounds p) → r' = r)).
  { intros ->. by exists r. }
  apply run_saved in Hp' as [Hp'|(-> & [(a & Hc & ->)|(p0 & Hp0 & He)])].
  - apply Hsame. congruence.
  - destruct Hinit. by rewrite Hc.
  - assert (p0 = p) as -> by congruence.
    inversion He; subst; clear He; try (by apply Hsame);
      try (by destruct Hreset).
    + apply Hsame. by case_bool_decide.
    + exists r. simpl. split; [|done].
      apply lookup_app_l_Some. done.
    + eexists. simpl. split; [by apply alter_last_lookup_Some|].
      case_decide; simpl; [|done].
      split_and!; [done|done|by apply prefix_app_r|done].
    + eexists. simpl. split; [by apply alter_last_lookup_Some|].
      by case_decide.
    + eexists. simpl. split; [by apply alter_last_lookup_Some|].
      by case_decide.
Qed.

Lemma run_keeps_round_history_witness :
  ({["p" := panel_project]} : Store) !! "p" = Some panel_project
  ∧ ∃ p', disk (run "t4" (RoundCmd "p" (round_submit (Some "ann") "but"))
                  {["p" := panel_project]}) !! "p" = Some p'
          ∧ ∃ r', rounds p' !! 0%nat = Some r'
                  ∧ round_number r' = 1
                  ∧ started_at r' = "t1"
                  ∧ [mkResponse (Some "ann") "yes" "t2" initial;
                     mkResponse (Some "bob") "no" "t3" initial]
                    `prefix_of` responses r'
                  ∧ (1%nat ≠ length (rounds panel_project) →
                     r' = mkRound 1 initial "t1"
                            [mkResponse (Some "ann") "yes" "t2" initial;
                             mkResponse (Some "bob") "no" "t3" initial]).
Proof.
  assert (Hp : ({["p" := panel_project]} : Store) !! "p" = Some panel_project)
    by (by vm_compute).
  split; [exact Hp|]. eexists. split; [by vm_compute|].
  match goal with
  | |- ∃ r', rounds ?q !! _ = _ ∧ _ =>
      exact (run_keeps_round_history "t4"
               (RoundCmd "p" (round_submit (Some "ann") "but"))
               {["p" := panel_project]} "p" panel_project q 0
               (mkRound 1 initial "t1"
                  [mkResponse (Some "ann") "yes" "t2" initial;
                   mkResponse (Some "bob") "no" "t3" initial])
               (λ H, H) (λ H, H) Hp eq_refl eq_refl)
  end.
Defined.

(** X18. The review prompts of [round cross-review]: a debater gets a prompt
    exactly when the current round holds an initial response of someone else,
    and the prompt lists exactly the initial responses of the current round
    that are not the debater's own. *)
Theorem cross_review_prompts now project dir proj current_round :
  load_project project dir = Some proj →
  mode proj = debate →
  last (rounds proj) = Some current_round →
  (∀ d others,
     ReviewPrompt d others
       ∈ output (cmd_round now project round_cross_review dir) →
     others ≠ []
     ∧ (∃ db, db ∈ debaters proj ∧ d_id db = d)
     ∧ ∀ r, r ∈ others ↔
            r ∈ responses current_round ∧ r_phase r = initial
            ∧ r_debater_id r ≠ Some d)
  ∧ (∀ db r,
       db ∈ debaters proj → r ∈ responses current_round →
       r_phase r = initial → r_debater_id r ≠ Some (d_id db) →
       ∃ others,
         ReviewPrompt (d_id db) others
           ∈ output (cmd_round now project round_cross_review dir)).
Proof.
  intros Hload Hmode Hlast. unfold cmd_round. rewrite Hload.
  rewrite decide_False by (by rewrite Hmode; intros []).
  rewrite Hlast. simpl.
  set (resps := filter (λ r, r_phase r = initial) (responses current_round)).
  split.
  - intros d others [[=]|Hin]%elem_of_cons.
    apply list_elem_of_omap in Hin as (db & Hdb & Hsome).
    destruct (filter _ resps) as [|o os] eqn:Hf; [done|].
    injection Hsome as <- <-. split_and!; [done|by exists db|].
    intros r. rewrite <-Hf. unfold resps. rewrite !list_elem_of_filter.
    tauto.
  - intros db r Hdb Hr Hph Hother.
    assert (Hin : r ∈ filter (λ r, r_debater_id r ≠ Some (d_id db)) resps).
    { unfold resps. rewrite !list_elem_of_filter. tauto. }
    destruct (filter _ resps) as [|o os] eqn:Hf; [by inversion Hin|].
    exists (o :: os). right. apply list_elem_of_omap. exists db.
    split; [done|]. by rewrite Hf.
Qed.

Lemma cross_review_prompts_witness :
  load_project "p" {["p" := panel_project]} = Some panel_project
  ∧ ∃ others,
      ReviewPrompt "ann" others
        ∈ output (cmd_round "t4" "p" round_cross_review
                    {["p" := panel_project]}).
Proof.
  assert (Hload : load_project "p" {["p" := panel_project]}
                  = Some panel_project) by (by vm_compute).
  split; [exact Hload|].
  apply (proj2 (cross_review_prompts "t4" "p" {["p" := panel_project]}
                  panel_project _ Hload eq_refl eq_refl)
           (mkDebater "ann" "ann" "" "t0")
           (mkResponse (Some "bob") "no" "t3" initial)).
  - by left.
  - simpl. right. by left.
  - reflexivity.
  - discriminate.
Defined.

(** ** Dispatch: what is ready after a command *)

Lemma apply_status_status {D} now st (x : Item D) :
  i_status (apply_status now st x) = st.
Proof. by destruct st. Qed.

Lemma record_item_not_pending_after {D} now text (x : Item D) :
  i_status (record_item now text x) ≠ pending.
Proof. unfold record_item. simpl. by case_decide. Qed.

Lemma replaced_not_ready proj i (x x' : Task) :
  NoDup (task_ids proj) →
  tasks proj !! i = Some x → i_id x' = i_id x → i_status x' ≠ pending →
  i_id x ∉ i_id <$> compute_ready_tasks
                      (set_tasks (<[i := x']> (tasks proj)) proj).
Proof.
  intros Hnd Hi Hid Hst (u & Hu & Hin)%list_elem_of_fmap.
  rewrite compute_ready_tasks_filter in Hin. simpl in Hin.
  apply list_elem_of_filter in Hin as [[Hpend _] Hin].
  apply list_elem_of_lookup in Hin as [j Hj].
  destruct (decide (j = i)) as [->|Hne].
  - rewrite list_lookup_insert_eq in Hj by (by eapply lookup_lt_Some).
    injection Hj as <-. done.
  - rewrite list_lookup_insert_ne in Hj by done. apply Hne.
    apply (NoDup_lookup (task_ids proj) j i (i_id x)); [done| |];
      unfold task_ids; rewrite list_lookup_fmap.
    + transitivity (i_id <$> Some u); [by f_equal|]. simpl. by rewrite Hu.
    + transitivity (i_id <$> Some x); [by f_equal|done].
Qed.

(** X19. Once a task of a dag project with distinct ids is given a status
    other than pending, its id is no longer among the ready tasks. *)
Theorem cmd_update_leaves_ready now dir project proj target status st :
  load_project project dir = Some proj →
  mode proj = dag →
  NoDup (task_ids proj) →
  parse_status status = Some st → st ≠ pending →
  target ∈ task_ids proj →
  ∃ proj',
    disk (cmd_update now project target status dir) !! project = Some proj'
    ∧ exit (cmd_update now project target status dir) = None
    ∧ target ∉ i_id <$> compute_ready_tasks proj'.
Proof.
  intros Hload Hmode Hnd Hparse Hst Htarget.
  destruct (find_item target (tasks proj)) as [[i t]|] eqn:Hfind;
    [|by apply find_item_None in Hfind].
  unfold cmd_update. rewrite Hload, Hparse, Hmode, Hfind.
  apply find_item_Some in Hfind as (Hi & <- & _).
  eexists. simpl. unfold save_project. rewrite lookup_insert_eq.
  split_and!; [done..|].
  apply replaced_not_ready; [done..|apply apply_status_id|].
  by rewrite apply_status_status.
Qed.

Lemma cmd_update_leaves_ready_witness :
  load_project "p" {["p" := fork_project]} = Some fork_project
  ∧ ∃ proj',
      disk (cmd_update "t1" "p" "b" "in-progress" {["p" := fork_project]})
        !! "p" = Some proj'
      ∧ exit (cmd_update "t1" "p" "b" "in-progress" {["p" := fork_project]})
        = None
      ∧ ("b" : string) ∉ i_id <$> compute_ready_tasks proj'.
Proof.
  assert (Hload : load_project "p" {["p" := fork_project]} = Some fork_project)
    by (by vm_compute).
  split; [exact Hload|].
  apply (cmd_update_leaves_ready "t1" {["p" := fork_project]} "p" fork_project
           "b" "in-progress" in_progress Hload).
  - reflexivity.
  - apply (bool_decide_unpack _). vm_compute. exact I.
  - reflexivity.
  - discriminate.
  - apply (bool_decide_unpack _). vm_compute. exact I.
Defined.

(** X20. Once a result is recorded for a task of a dag project with distinct
    ids, its id is no longer among the ready tasks: a pending task has become
    in-progress. *)
Theorem cmd_result_leaves_ready now dir project proj target text :
  load_project project dir = Some proj →
  mode proj = dag →
  NoDup (task_ids proj) →
  target ∈ task_ids proj →
  ∃ proj',
    disk (cmd_result now project target text dir) !! project = Some proj'
    ∧ exit (cmd_result now project target text dir) = None
    ∧ target ∉ i_id <$> compute_ready_tasks proj'.
Proof.
  intros Hload Hmode Hnd Htarget.
  destruct (find_item target (tasks proj)) as [[i t]|] eqn:Hfind;
    [|by apply find_item_None in Hfind].
  unfold cmd_result. rewrite Hload.
  rewrite decide_False by (by rewrite Hmode).
  unfold record_result. rewrite Hfind.
  apply find_item_Some in Hfind as (Hi & <- & _).
  eexists. simpl. unfold save_project. rewrite lookup_insert_eq.
  split_and!; [done..|].
  apply replaced_not_ready; [done..|apply record_item_id|].
  apply record_item_not_pending_after.
Qed.

Lemma cmd_result_leaves_ready_witness :
  load_project "p" {["p" := fork_project]} = Some fork_project
  ∧ ∃ proj',
      disk (cmd_result "t1" "p" "b" "ok" {["p" := fork_project]}) !! "p"
      = Some proj'
      ∧ exit (cmd_result "t1" "p" "b" "ok" {["p" := fork_project]}) = None
      ∧ ("b" : string) ∉ i_id <$> compute_ready_tasks proj'.
Proof.
  assert (Hload : load_project "p" {["p" := fork_project]} = Some fork_project)
    by (by vm_compute).
  split; [exact Hload|].
  apply (cmd_result_leaves_ready "t1" {["p" := fork_project]} "p" fork_project
           "b" "ok" Hload).
  - reflexivity.
  - apply (bool_decide_unpack _). vm_compute. exact I.
  - apply (bool_decide_unpack _). vm_compute. exact I.
Defined.

Lemma is_ready_snoc_pending ts (t u : Task) :
  i_status t ≠ done → is_ready (ts ++ [t]) u ↔ is_ready ts u.
Proof.
  intros Ht. rewrite !is_ready_spec.
  split; intros [Hst Hdeps]; (split; [done|]); intros d Hd;
    destruct (Hdeps d Hd) as (v & Hv & Hid & Hdone).
  - apply elem_of_app in Hv as [Hv|Hv%list_elem_of_singleton]; [by exists v|].
    by subst.
  - exists v. split; [|done]. apply elem_of_app. by left.
Qed.

(** X21. Adding a task changes the ready list only at its end: the tasks
    that were ready stay ready, in the same order, and the new task follows
    them exactly when all its dependencies are ids of done tasks. *)
Theorem cmd_add_ready dir project proj task_id agent desc deps proj' :
  load_project project dir = Some proj →
  disk (cmd_add project task_id agent desc deps dir) !! project = Some proj' →
  exit (cmd_add project task_id agent desc deps dir) = None →
  compute_ready_tasks proj'
  = compute_ready_tasks proj
    ++ (if decide (is_ready (tasks proj) (make_task task_id agent desc deps))
        then [make_task task_id agent desc deps] else []).
Proof.
  intros Hload Hsaved Hexit. unfold cmd_add in *. rewrite Hload in *.
  case_decide; [done|].
  destruct (detect_cycles _) as [[|c cs]|]; [|done..].
  simpl in Hsaved. unfold save_project in Hsaved.
  rewrite lookup_insert_eq in Hsaved. injection Hsaved as <-.
  set (t := make_task task_id agent desc deps).
  rewrite !compute_ready_tasks_filter. simpl. rewrite filter_app. f_equal.
  - apply filter_ext_elem. intros u _. by apply is_ready_snoc_pending.
  - rewrite filter_cons, filter_nil.
    destruct (decide (is_ready (tasks proj) t)) as [Hr|Hr].
    + rewrite decide_True; [done|]. by apply is_ready_snoc_pending.
    + rewrite decide_False; [done|]. intros Hr'. apply Hr.
      by apply is_ready_snoc_pending in Hr'.
Qed.

Lemma cmd_add_ready_witness :
  load_project "p" (run_all open_script ∅) = Some open_project
  ∧ ∃ proj',
      disk (cmd_add "p" "c" "" "" [] (run_all open_script ∅)) !! "p"
      = Some proj'
      ∧ compute_ready_tasks proj'
        = compute_ready_tasks open_project
          ++ (if decide (is_ready (tasks open_project)
                           (make_task "c" "" "" []))
              then [make_task "c" "" "" []] else []).
Proof.
  assert (Hload : load_project "p" (run_all open_script ∅) = Some open_project)
    by (by vm_compute).
  split; [exact Hload|]. eexists. split; [by vm_compute|].
  match goal with
  | |- compute_ready_tasks ?q = _ =>
      exact (cmd_add_ready (run_all open_script ∅) "p" open_project
               "c" "" "" [] q Hload eq_refl eq_refl)
  end.
Defined.

(** ** [cmd_ready] *)

Lemma filter_length_all {A} (P : A → Prop) `{!∀ x, Decision (P x)}
    (l : list A) :
  length (filter P l) = length l ↔ Forall P l.
Proof.
  induction l as [|x l IH]; [by split|].
  rewrite filter_cons. pose proof (length_filter P l) as Hle.
  destruct (decide (P x)) as [HP|HP]; simpl.
  - split.
    + intros [= Hlen]. constructor; [done|by apply IH].
    + intros [_ Hall]%Forall_cons. f_equal. by apply IH.
  - split; [lia|]. by intros [? _]%Forall_cons.
Qed.

(** X22. [cmd_ready] on a dag project never writes. It lists the ready tasks
    when there are some; otherwise it says that all tasks are done exactly
    when the project has tasks and each of them is done, and that nothing is
    ready in every other case. *)
Theorem cmd_ready_reports project dir proj :
  load_project project dir = Some proj →
  mode proj = dag →
  disk (cmd_ready project dir) = dir
  ∧ exit (cmd_ready project dir) = None
  ∧ (compute_ready_tasks proj ≠ [] →
     output (cmd_ready project dir) = [ReadyTasks (compute_ready_tasks proj)])
  ∧ (compute_ready_tasks proj = [] →
     (output (cmd_ready project dir) = [AllTasksDone]
      ∨ output (cmd_ready project dir) = [NothingReady])
     ∧ (output (cmd_ready project dir) = [AllTasksDone] ↔
        tasks proj ≠ [] ∧ Forall (λ t, i_status t = done) (tasks proj))).
Proof.
  intros Hload Hmode. unfold cmd_ready. rewrite Hload.
  rewrite decide_False by (by rewrite Hmode; intros []).
  destruct (compute_ready_tasks proj) as [|r rs] eqn:Hr; simpl.
  - split_and!; [done|done|done|]. intros _.
    assert (Hiff : length (filter (λ t : Task, i_status t = done) (tasks proj))
                   = length (tasks proj) ∧ (0 < length (tasks proj))%nat
                   ↔ tasks proj ≠ [] ∧ Forall (λ t, i_status t = done)
                                              (tasks proj)).
    { rewrite filter_length_all. destruct (tasks proj); simpl; [|split].
      - split; [lia|by intros [? _]].
      - by intros [? _].
      - intros [_ ?]. split; [done|lia]. }
    case_bool_decide as Hd; (split; [auto|]).
    + split; [by intros _; apply Hiff|done].
    + split; [done|]. intros Hall. destruct Hd. by apply Hiff.
  - split_and!; [done|done|done|done].
Qed.

Lemma cmd_ready_reports_witness :
  load_project "p" {["p" := fork_project]} = Some fork_project
  ∧ disk (cmd_ready "p" {["p" := fork_project]}) = {["p" := fork_project]}
  ∧ exit (cmd_ready "p" {["p" := fork_project]}) = None
  ∧ (compute_ready_tasks fork_project ≠ [] →
     output (cmd_ready "p" {["p" := fork_project]})
     = [ReadyTasks (compute_ready_tasks fork_project)])
  ∧ (compute_ready_tasks fork_project = [] →
     (output (cmd_ready "p" {["p" := fork_project]}) = [AllTasksDone]
      ∨ output (cmd_ready "p" {["p" := fork_project]}) = [NothingReady])
     ∧ (output (cmd_ready "p" {["p" := fork_project]}) = [AllTasksDone] ↔
        tasks fork_project ≠ []
        ∧ Forall (λ t, i_status t = done) (tasks fork_project))).
Proof.
  assert (Hload : load_project "p" {["p" := fork_project]} = Some fork_project)
    by (by vm_compute).
  split; [exact Hload|].
  exact (cmd_ready_reports "p" {["p" := fork_project]} fork_project Hload
           eq_refl).
Defined.

(** ** [cmd_init] *)

Lemma load_save project p dir :
  load_project project (save_project project p dir) = Some p.
Proof. apply lookup_insert_eq. Qed.

Lemma cmd_init_fresh now project a dir :
  dir !! project = None ∨ init_force a = true →
  (init_mode a = linear → init_pipeline a ≠ []) →
  cmd_init now project a dir
  = commit dir project (init_project now project a)
      [ProjectCreated project (init_mode a)].
Proof.
  intros Hfree Hpipe. unfold cmd_init, init_project.
  rewrite decide_False.
  - destruct (init_mode a); [|done..].
    destruct (init_pipeline a); [by destruct Hpipe|done].
  - intros [[p Hp] Hf]. destruct Hfree; congruence.
Qed.



(** ** [round submit] and [round status] *)

(** X24. A debate as [cmd_init] creates it has no round: [round submit] on it
    exits with the no-active-round error, and succeeds once [round start] has
    run. *)
Theorem submit_needs_round now project a dir debater_id text :
  dir !! project = None ∨ init_force a = true →
  init_mode a = debate →
  exit (cmd_round now project (round_submit debater_id text)
          (disk (cmd_init now project a dir)))
  = Some NoActiveRound
  ∧ exit (cmd_round now project (round_submit debater_id text)
            (disk (cmd_round now project round_start
                     (disk (cmd_init now project a dir)))))
    = None.
Proof.
  intros Hfree Hmode.
  rewrite (cmd_init_fresh now project a dir Hfree)
    by (by rewrite Hmode).
  change (disk (commit dir project (init_project now project a) _))
    with (save_project project (init_project now project a) dir).
  set (p0 := init_project now project a).
  set (d0 := save_project project p0 dir).
  assert (Hm0 : mode p0 = debate) by (unfold p0, init_project; by rewrite Hmode).
  assert (Hr0 : rounds p0 = []) by (unfold p0, init_project; by rewrite Hmode).
  assert (Hdeb : mode p0 ≠ debate → False) by (by rewrite Hm0; intros []).
  assert (Hload0 : load_project project d0 = Some p0) by apply load_save.
  split.
  - unfold cmd_round. by rewrite Hload0, decide_False, Hr0.
  - assert (Hstart : disk (cmd_round now project round_start d0)
                     = save_project project
                         (set_rounds
                            (rounds p0
                             ++ [mkRound (Z.of_nat (length (rounds p0)) + 1)
                                         initial now []]) p0) d0).
    { unfold cmd_round. by rewrite Hload0, decide_False. }
    rewrite Hstart. unfold cmd_round. rewrite load_save.
    rewrite decide_False by done. simpl. by rewrite last_snoc.
Qed.

Lemma submit_needs_round_witness :
  ((∅ : Store) !! "p" = None ∨ false = true)
  ∧ exit (cmd_round "t0" "p" (round_submit (Some "ann") "yes")
            (disk (cmd_init "t0" "p" (mkInitArgs debate "q" [] "" false) ∅)))
    = Some NoActiveRound
  ∧ exit (cmd_round "t0" "p" (round_submit (Some "ann") "yes")
            (disk (cmd_round "t0" "p" round_start
                     (disk (cmd_init "t0" "p"
                              (mkInitArgs debate "q" [] "" false) ∅)))))
    = None.
Proof.
  assert (Hfree : (∅ : Store) !! "p" = None ∨ false = true) by (by left).
  split; [exact Hfree|].
  exact (submit_needs_round "t0" "p" (mkInitArgs debate "q" [] "" false) ∅
           (Some "ann") "yes" Hfree eq_refl).
Defined.

Lemma last_alter_last {A} (f : A → A) (l : list A) x :
  last l = Some x → last (alter_last f l) = Some (f x).
Proof.
  intros Hl. rewrite last_lookup in *. unfold alter_last.
  by rewrite length_alter, list_lookup_alter_eq, Hl.
Qed.

(** X25. After a registered debater submits a response, [round status] shows
    the current round with its phase unchanged and that debater as having
    answered. *)
Theorem status_after_submit now now' project dir proj current_round db text :
  load_project project dir = Some proj →
  mode proj = debate →
  last (rounds proj) = Some current_round →
  db ∈ debaters proj →
  ∃ answered,
    output (cmd_round now' project round_status
              (disk (cmd_round now project
                       (round_submit (Some (d_id db)) text) dir)))
    = [RoundStatus (round_number current_round) (phase current_round) answered]
    ∧ (d_id db, true) ∈ answered.
Proof.
  intros Hload Hmode Hlast Hdb.
  assert (Hdeb : mode proj ≠ debate → False) by (by rewrite Hmode; intros []).
  unfold cmd_round at 2. rewrite Hload, decide_False, Hlast by done. simpl.
  unfold cmd_round, load_project, save_project. rewrite lookup_insert_eq.
  simpl. rewrite decide_False by done.
  erewrite last_alter_last by done. simpl.
  eexists. split; [done|].
  apply list_elem_of_fmap. exists db. split; [|done].
  f_equal. symmetry. apply bool_decide_eq_true.
  apply list_elem_of_fmap.
  exists (mkResponse (Some (d_id db)) text now (phase current_round)).
  split; [done|]. apply list_elem_of_filter. split; [done|].
  apply elem_of_app. right. by left.
Qed.

Lemma status_after_submit_witness :
  load_project "p" {["p" := panel_project]} = Some panel_project
  ∧ ∃ answered,
      output (cmd_round "t5" "p" round_status
                (disk (cmd_round "t4" "p" (round_submit (Some "bob") "so")
                         {["p" := panel_project]})))
      = [RoundStatus 1 initial answered]
      ∧ (("bob" : string), true) ∈ answered.
Proof.
  assert (Hload : load_project "p" {["p" := panel_project]}
                  = Some panel_project) by (by vm_compute).
  split; [exact Hload|].
  apply (status_after_submit "t4" "t5" "p" {["p" := panel_project]}
           panel_project (mkRound 1 initial "t1"
              [mkResponse (Some "ann") "yes" "t2" initial;
               mkResponse (Some "bob") "no" "t3" initial])
           (mkDebater "bob" "bob" "" "t0") "so" Hload eq_refl eq_refl).
  right. by left.
Defined.

(** X26. Right after [round start], [round status] shows the new round, in
    phase initial, with no debater having answered. *)
Theorem status_after_start now now' project dir proj :
  load_project project dir = Some proj →
  mode proj = debate →
  output (cmd_round now' project round_status
            (disk (cmd_round now project round_start dir)))
  = [RoundStatus (Z.of_nat (length (rounds proj)) + 1) initial
       ((λ d, (d_id d, false)) <$> debaters proj)].
Proof.
  intros Hload Hmode.
  assert (Hdeb : mode proj ≠ debate → False) by (by rewrite Hmode; intros []).
  unfold cmd_round at 2. rewrite Hload, decide_False by done. simpl.
  unfold cmd_round, load_project, save_project. rewrite lookup_insert_eq.
  simpl. rewrite decide_False by done. by rewrite last_snoc.
Qed.

Lemma status_after_start_witness :
  load_project "p" {["p" := panel_project]} = Some panel_project
  ∧ output (cmd_round "t5" "p" round_status
              (disk (cmd_round "t4" "p" round_start {["p" := panel_project]})))
    = [RoundStatus 2 initial [("ann", false); ("bob", false)]].
Proof.
  assert (Hload : load_project "p" {["p" := panel_project]}
                  = Some panel_project) by (by vm_compute).
  split; [exact Hload|].
  exact (status_after_start "t4" "t5" "p" {["p" := panel_project]}
           panel_project Hload eq_refl).
Defined.

(** ** Statuses *)

(** The texts [cmd_update] accepts are exactly the five status names. *)
Lemma parse_status_iff s st : parse_status s = Some st ↔ s = status_text st.
Proof.
  split; [|intros ->; by destruct st].
  unfold parse_status. repeat case_decide; intros [= <-]; by subst.
Qed.

(** X27. Giving a stage of a linear project a status other than done never
    moves the cursor and announces no stage: a stage that failed or was
    skipped at the cursor is still the one the cursor points at. *)
Theorem cmd_update_not_done_keeps_cursor now dir project proj target status st :
  load_project project dir = Some proj →
  mode proj = linear →
  parse_status status = Some st → st ≠ done →
  target ∈ i_id <$> stages proj →
  ∃ proj',
    disk (cmd_update now project target status dir) !! project = Some proj'
    ∧ exit (cmd_update now project target status dir) = None
    ∧ current_stage proj' = current_stage proj
    ∧ i_id <$> stages proj' = i_id <$> stages proj
    ∧ advanced (output (cmd_update now project target status dir)) = [].
Proof.
  intros Hload Hmode Hparse Hst Htarget.
  destruct (find_item target (stages proj)) as [[i s]|] eqn:Hfind;
    [|by apply find_item_None in Hfind].
  unfold cmd_update. rewrite Hload, Hparse, Hmode, Hfind.
  rewrite bool_decide_eq_false_2 by (by intros [? _]).
  apply find_item_Some in Hfind as (Hi & _).
  eexists. simpl. unfold save_project. rewrite lookup_insert_eq.
  split_and!; [done..| |done].
  eapply ids_insert; [done|apply apply_status_id].
Qed.

Lemma cmd_update_not_done_keeps_cursor_witness :
  load_project "p" {["p" := pipeline_project]} = Some pipeline_project
  ∧ ∃ proj',
      disk (cmd_update "t2" "p" "y" "skipped" {["p" := pipeline_project]})
        !! "p" = Some proj'
      ∧ exit (cmd_update "t2" "p" "y" "skipped" {["p" := pipeline_project]})
        = None
      ∧ current_stage proj' = current_stage pipeline_project
      ∧ i_id <$> stages proj' = i_id <$> stages pipeline_project
      ∧ advanced (output (cmd_update "t2" "p" "y" "skipped"
                            {["p" := pipeline_project]})) = [].
Proof.
  assert (Hload : load_project "p" {["p" := pipeline_project]}
                  = Some pipeline_project) by (by vm_compute).
  split; [exact Hload|].
  apply (cmd_update_not_done_keeps_cursor "t2" {["p" := pipeline_project]} "p"
           pipeline_project "y" "skipped" skipped Hload).
  - reflexivity.
  - reflexivity.
  - discriminate.
  - apply (bool_decide_unpack _). vm_compute. exact I.
Defined.
